(** * go-s3: a verified model of [client.go]

    The client is a thin wrapper around the AWS SDK.  Every method of
    [Client] is embedded as a program over the SDK calls it makes; the
    SDK itself (and the storage service behind it) is an arbitrary
    handler threading an arbitrary world.  The only pure function of the
    file, [normalizeURL], is embedded as the index loop it is. *)

From Stdlib Require Import String Ascii ZArith Lia.
From stdpp Require Import base list strings.

Local Open Scope string_scope.

(** ** [normalizeURL] (client.go, lines 132-139) *)

Module URL.

(** [url[i] == '?' || url[i] == '#'] *)
Definition isDelim (ch : ascii) : bool :=
  (Ascii.eqb ch "?" || Ascii.eqb ch "#")%bool.

(** The loop [for i := 0; i < len(url); i++]: [steps] is the number of
    iterations left, [len(url) - i]. *)
Fixpoint normalizeURL_from (url : string) (i steps : nat) : string :=
  match steps with
  | 0 => url
  | S steps' =>
      match String.get i url with
      | Some ch =>
          if isDelim ch then String.substring 0 i url
          else normalizeURL_from url (S i) steps'
      | None => url
      end
  end.

Definition normalizeURL (url : string) : string :=
  normalizeURL_from url 0 (String.length url).

(** [u] has byte [ch] at some position. *)
Definition contains (ch : ascii) (u : string) : Prop :=
  exists i, String.get i u = Some ch.

(** Position [i] holds the first ['?'] or ['#'] of [u]. *)
Definition firstDelimAt (u : string) (i : nat) : Prop :=
  (exists ch, String.get i u = Some ch /\ isDelim ch = true) /\
  forall j ch, j < i -> String.get j u = Some ch -> isDelim ch = false.

End URL.

Import URL.

(** ** Go values used by the client *)

(** The [error] interface.  [errors_New] and [fmt_Errorf] build a plain
    message; [fmt_Errorf_w format err] is [fmt.Errorf(format, err)] for a
    format ending in [%w], which wraps [err]; [sdk_Error] stands for
    an error value made by the SDK. *)
Inductive error : Type :=
| errors_New (text : string)
| fmt_Errorf (format : string)
| fmt_Errorf_w (format : string) (err : error)
| sdk_Error (text : string).

(** [time.Duration]: an int64 count of nanoseconds. *)
Module time.
Definition Duration := Z.
Definition Nanosecond : Duration := 1%Z.
Definition Microsecond : Duration := (1000 * Nanosecond)%Z.
Definition Millisecond : Duration := (1000 * Microsecond)%Z.
Definition Second : Duration := (1000 * Millisecond)%Z.
Definition Minute : Duration := (60 * Second)%Z.
Definition Hour : Duration := (60 * Minute)%Z.
End time.

(** [io.Reader]: the bytes the reader yields. *)
Definition io_Reader := list Byte.byte.

(** Arguments of [log.Printf]: [%d] takes an int, [%v] an error. *)
Inductive logArg : Type :=
| argInt (n : nat)
| argError (e : error).

(** ** The SDK surface the client touches

  Records carry the fields [client.go] sets; each lives in a module
  named after its Go type so the field names stay the source's. *)

Module credentials.
Record StaticCredentialsProvider := NewStaticCredentialsProvider
  { key : string; secret : string; session : string }.
End credentials.

Module awsconfig.
(** The options [New] passes to [LoadDefaultConfig]. *)
Record LoadOptions := {
  WithRegion : string;
  WithCredentialsProvider : credentials.StaticCredentialsProvider }.
End awsconfig.

Module aws.
(** [aws.Config], as far as the loader reports it back. *)
Record Config := {
  Region : string;
  Credentials : credentials.StaticCredentialsProvider }.
End aws.

Module s3.
Record Options := { BaseEndpoint : option string; UsePathStyle : bool }.
(** [*s3.Client]: the loaded configuration and the client options. *)
Record Client := { config : aws.Config; options : Options }.
Definition NewFromConfig (cfg : aws.Config) (optFn : Options -> Options) : Client :=
  {| config := cfg;
     options := optFn {| BaseEndpoint := None; UsePathStyle := false |} |}.
(** [*s3.PresignClient] wraps the client it was made from. *)
Record PresignClient := NewPresignClient { client : Client }.
Record PresignOptions := { Expires : time.Duration }.
Record PresignedHTTPRequest := { URL : string }.
End s3.

Module PutObjectInput.
Record t := { Bucket : string; Key : string; Body : io_Reader; ContentType : string }.
End PutObjectInput.

Module DeleteObjectInput.
Record t := { Bucket : string; Key : string }.
End DeleteObjectInput.

Module HeadObjectInput.
Record t := { Bucket : string; Key : string }.
End HeadObjectInput.

Module GetObjectInput.
Record t := { Bucket : string; Key : string }.
End GetObjectInput.

Module ListObjectsInput.
Record t := { Bucket : string; Prefix : string }.
End ListObjectsInput.

Module types.
(** [types.Object]; the client reads [Key] only.  [Key] is a [*string]:
    [None] is the nil pointer, which a listing may hold. *)
Record Object := { Key : option string }.
End types.

Module ListObjectsOutput.
Record t := { Contents : list types.Object }.
End ListObjectsOutput.

(** The calls that leave the package.  The index is what the caller gets
    back: the SDK returns either an error or an output; where the client
    drops the output ([_, err := ...]) only the error is kept. *)
Inductive call : Type -> Type :=
| LoadDefaultConfig (opts : awsconfig.LoadOptions) : call (error + aws.Config)
| PutObject (cl : s3.Client) (input : PutObjectInput.t) : call (option error)
| DeleteObject (cl : s3.Client) (input : DeleteObjectInput.t) : call (option error)
| HeadObject (cl : s3.Client) (input : HeadObjectInput.t) : call (option error)
| ListObjects (cl : s3.Client) (input : ListObjectsInput.t)
    : call (error + ListObjectsOutput.t)
| PresignGetObject (pc : s3.PresignClient) (input : GetObjectInput.t)
    (opts : s3.PresignOptions) : call (error + s3.PresignedHTTPRequest)
| log_Printf (format : string) (args : list logArg) : call unit.

(** ** Programs over the SDK *)

(** A method body: it returns, or makes a call and goes on with the
    answer, or panics (an index out of range). *)
Inductive Prog (A : Type) : Type :=
| Ret (a : A)
| Do {X : Type} (c : call X) (k : X -> Prog A)
| Panic (msg : string).

Arguments Ret {A} a.
Arguments Do {A X} c k.
Arguments Panic {A} msg.

Fixpoint bind {A B : Type} (m : Prog A) (f : A -> Prog B) : Prog B :=
  match m with
  | Ret a => f a
  | Do c k => Do c (fun x => bind (k x) f)
  | Panic msg => Panic msg
  end.

Definition perform {X : Type} (c : call X) : Prog X := Do c Ret.

(** [*p]: reading through a nil pointer panics. *)
Definition deref {A : Type} (p : option A) : Prog A :=
  match p with
  | Some a => Ret a
  | None => Panic "invalid memory address or nil pointer dereference"
  end.

Declare Scope prog_scope.
Delimit Scope prog_scope with prog.
Bind Scope prog_scope with Prog.
Notation "'let*' x ':=' m 'in' k" := (bind m (fun x => k))
  (at level 10, x name, m at level 100, k at level 200) : prog_scope.
Local Open Scope prog_scope.

(** The world outside: a handler answers each call and moves the world
    on.  Nothing is assumed of it. *)
Definition Handler (W : Type) : Type := forall X : Type, call X -> W -> X * W.

(** A call together with the answer it got. *)
Inductive Event : Type :=
| Ev {X : Type} (c : call X) (x : X).

Inductive Outcome (A : Type) : Type :=
| Returned (a : A)
| Panicked (msg : string).

Arguments Returned {A} a.
Arguments Panicked {A} msg.

Fixpoint run {W A : Type} (h : Handler W) (p : Prog A) (w : W) : Outcome A * W :=
  match p with
  | Ret a => (Returned a, w)
  | Do c k => let '(x, w') := h _ c w in run h (k x) w'
  | Panic msg => (Panicked msg, w)
  end.

(** The calls a run makes, in order, each with its answer. *)
Fixpoint trace {W A : Type} (h : Handler W) (p : Prog A) (w : W) : list Event :=
  match p with
  | Ret _ => []
  | Do c k => let '(x, w') := h _ c w in Ev c x :: trace h (k x) w'
  | Panic _ => []
  end.

(** ** The client (client.go) *)

(** Modelled from the spec: the declaration of [Config] is in a file of
    the package that is not part of the sources at hand; its five string
    fields are the ones [New] reads and the README lists. *)
Record Config := {
  Endpoint : string;
  AccessKeyID : string;
  SecretAccessKey : string;
  BucketName : string;
  Region : string }.

Record Client := {
  client : s3.Client;
  bucket : string;
  endpoint : string }.

(** Go returns a [*Client] and an error; [None] is the nil pointer,
    respectively the nil error. *)
Definition New (cfg : Config) : Prog (option Client * option error) :=
  if (String.eqb (AccessKeyID cfg) "" || String.eqb (SecretAccessKey cfg) "")%bool then
    Ret (None, Some (errors_New "S3 credentials not configured"))
  else
    let* r := perform (LoadDefaultConfig
      {| awsconfig.WithRegion := Region cfg;
         awsconfig.WithCredentialsProvider :=
           credentials.NewStaticCredentialsProvider
             (AccessKeyID cfg) (SecretAccessKey cfg) "" |}) in
    match r with
    | inl err => Ret (None, Some (fmt_Errorf_w "failed to load AWS config: %w" err))
    | inr awsCfg =>
        let client := s3.NewFromConfig awsCfg (fun o =>
          {| s3.BaseEndpoint := Some (Endpoint cfg); s3.UsePathStyle := true |}) in
        Ret (Some {| client := client;
                     bucket := BucketName cfg;
                     endpoint := Endpoint cfg |}, None)
    end.

Definition GetPresignedURL (c : Client) (key : string) (expiration : time.Duration)
  : Prog (string * option error) :=
  let presignClient := s3.NewPresignClient (client c) in
  let* r := perform (PresignGetObject presignClient
    {| GetObjectInput.Bucket := bucket c; GetObjectInput.Key := key |}
    {| s3.Expires := expiration |}) in
  match r with
  | inl err => Ret ("", Some (fmt_Errorf_w "failed to generate presigned URL: %w" err))
  | inr request => Ret (s3.URL request, None)
  end.

(** [15*time.Minute], the expiration written at the three call sites. *)
Definition fifteenMinutes : time.Duration := (15 * time.Minute)%Z.

Definition UploadFile (c : Client) (objectID key : string) (body : io_Reader)
  (contentType : string) : Prog (string * option error) :=
  let objectKey := objectID ++ "/" ++ key in
  let* err := perform (PutObject (client c)
    {| PutObjectInput.Bucket := bucket c;
       PutObjectInput.Key := objectKey;
       PutObjectInput.Body := body;
       PutObjectInput.ContentType := contentType |}) in
  match err with
  | Some err => Ret ("", Some (fmt_Errorf_w "failed to upload file to S3: %w" err))
  | None =>
      let* signed := GetPresignedURL c objectKey fifteenMinutes in
      let '(presignedURL, err) := signed in
      match err with
      | Some err => Ret ("", Some (fmt_Errorf_w "failed to generate presigned URL: %w" err))
      | None => Ret (presignedURL, None)
      end
  end.

Definition DeleteFile (c : Client) (key : string) : Prog (option error) :=
  let* err := perform (DeleteObject (client c)
    {| DeleteObjectInput.Bucket := bucket c; DeleteObjectInput.Key := key |}) in
  match err with
  | Some err => Ret (Some (fmt_Errorf_w "failed to delete file from S3: %w" err))
  | None => Ret None
  end.

Definition FileExists (c : Client) (key : string) : Prog (bool * option error) :=
  let* err := perform (HeadObject (client c)
    {| HeadObjectInput.Bucket := bucket c; HeadObjectInput.Key := key |}) in
  match err with
  | Some _ => Ret (false, None)
  | None => Ret (true, None)
  end.

(** The [for _, obj := range objects.Contents] loop of
    [FindKeyByPresignedURL], with the [return] that follows it. *)
Fixpoint findKeyLoop (c : Client) (normalizedTarget : string)
  (contents : list types.Object) : Prog (string * option error) :=
  match contents with
  | [] => Ret ("", Some (fmt_Errorf "object not found for the given presigned URL"))
  | obj :: rest =>
      let* key := deref (types.Key obj) in
      let* signed := GetPresignedURL c key fifteenMinutes in
      let '(objPresignedURL, err) := signed in
      match err with
      | Some _ => findKeyLoop c normalizedTarget rest
      | None =>
          if String.eqb (normalizeURL objPresignedURL) normalizedTarget
          then let* found := deref (types.Key obj) in Ret (found, None)
          else findKeyLoop c normalizedTarget rest
      end
  end.

Definition FindKeyByPresignedURL (c : Client) (presignedURL prefix : string)
  : Prog (string * option error) :=
  let* r := perform (ListObjects (client c)
    {| ListObjectsInput.Bucket := bucket c; ListObjectsInput.Prefix := prefix |}) in
  match r with
  | inl err => Ret ("", Some (fmt_Errorf_w "failed to list objects: %w" err))
  | inr objects =>
      let normalizedTarget := normalizeURL presignedURL in
      findKeyLoop c normalizedTarget (ListObjectsOutput.Contents objects)
  end.

(** The accessors [Bucket()] and [Endpoint()]. *)
Definition Client_Bucket (c : Client) : string := bucket c.
Definition Client_Endpoint (c : Client) : string := endpoint c.

(** ** [GetObjects]: fan-out, fan-in *)

Record presignedURLResult := {
  index : nat;
  url : string;
  err : option error }.

(** The body of the goroutine started for [(idx, obj)]: read [*obj.Key],
    sign, then build the record it sends on [resultsChan].  A panic in a
    goroutine ends the program. *)
Definition worker (c : Client) (idx : nat) (obj : types.Object)
  : Prog presignedURLResult :=
  let* key := deref (types.Key obj) in
  let* signed := GetPresignedURL c key fifteenMinutes in
  let '(presignedURL, err) := signed in
  Ret {| index := idx; url := presignedURL; err := err |}.

(** What the Go scheduler decides: [signing] is the order in which the
    goroutines (named by their listing index) make their signing call,
    [sending] the order in which their records enter the channel.  A
    schedule of a listing of [n] objects has both orders permutations of
    [0, ..., n-1]: every goroutine signs once and sends once, and the
    channel is closed only after all have.  The goroutines share nothing
    but the channel, so the model lets them sign first and delivers the
    records next; the log lines of the receiving loop then come after the
    signing calls in a trace, and no statement depends on that. *)
Record Schedule := {
  signing : list nat;
  sending : list nat }.

Definition validSchedule (n : nat) (s : Schedule) : Prop :=
  signing s ≡ₚ seq 0 n /\ sending s ≡ₚ seq 0 n.

(** The goroutines run in the order [order]; [held !! idx] is the record
    goroutine [idx] holds once it has signed. *)
Fixpoint runWorkers (c : Client) (contents : list types.Object) (order : list nat)
  (held : list (option presignedURLResult))
  : Prog (list (option presignedURLResult)) :=
  match order with
  | [] => Ret held
  | idx :: rest =>
      match contents !! idx with
      | Some obj =>
          let* r := worker c idx obj in
          runWorkers c contents rest (<[idx := Some r]> held)
      | None => runWorkers c contents rest held
      end
  end.

(** The records in the order they are received from [resultsChan]. *)
Definition received (order : list nat) (held : list (option presignedURLResult))
  : list presignedURLResult :=
  omap (fun idx => mjoin (held !! idx)) order.

(** The three variables the receiving loop updates. *)
Record collector := {
  presignedURLs : list string;
  errorCount : nat;
  firstError : option error }.

(** [for result := range resultsChan]. The write
    [presignedURLs[result.index] = result.url] panics out of range. *)
Fixpoint collect (results : list presignedURLResult) (st : collector)
  : Prog collector :=
  match results with
  | [] => Ret st
  | result :: rest =>
      match err result with
      | Some e =>
          let st' := {| presignedURLs := presignedURLs st;
                        errorCount := S (errorCount st);
                        firstError := match firstError st with
                                      | None => Some e
                                      | Some first => Some first
                                      end |} in
          let* _ := perform (log_Printf
            "[go-s3 GetObjects] ERROR: Failed to get presigned URL for index %d: %v"
            [argInt (index result); argError e]) in
          collect rest st'
      | None =>
          if decide (index result < length (presignedURLs st)) then
            collect rest {| presignedURLs := <[index result := url result]> (presignedURLs st);
                            errorCount := errorCount st;
                            firstError := firstError st |}
          else Panic "index out of range"
      end
  end.

(** [fmt.Errorf(format, err)] for an [err] that may be nil: [%w] of a nil
    error wraps nothing. *)
Definition Errorf_w (format : string) (err : option error) : error :=
  match err with
  | Some e => fmt_Errorf_w format e
  | None => fmt_Errorf format
  end.

(** The slice results: [None] is the nil slice, [Some []] an empty,
    non-nil one. *)
Definition GetObjects (c : Client) (sched : Schedule) (prefix : string)
  : Prog (option (list string) * option error) :=
  let* r := perform (ListObjects (client c)
    {| ListObjectsInput.Bucket := bucket c; ListObjectsInput.Prefix := prefix |}) in
  match r with
  | inl err => Ret (None, Some (fmt_Errorf_w "failed to list objects: %w" err))
  | inr objects =>
      let contents := ListObjectsOutput.Contents objects in
      if (length contents =? 0)%nat then Ret (Some [], None)
      else
        let* held := runWorkers c contents (signing sched)
                       (replicate (length contents) None) in
        let resultsChan := received (sending sched) held in
        let* st := collect resultsChan
          {| presignedURLs := replicate (length contents) "";
             errorCount := 0;
             firstError := None |} in
        if (errorCount st =? length contents)%nat then
          Ret (None, Some (Errorf_w "failed to get presigned URLs: %w" (firstError st)))
        else if (0 <? errorCount st)%nat then
          let validURLs := filter (fun url => url <> "") (presignedURLs st) in
          let* _ := perform (log_Printf
            "[go-s3 GetObjects] WARNING: %d out of %d presigned URLs failed to generate"
            [argInt (errorCount st); argInt (length contents)]) in
          Ret (Some validURLs, None)
        else Ret (Some (presignedURLs st), None)
  end.

(** ** A scripted service, for concrete runs

    The world counts the calls answered so far; the answers are read off
    a script. *)
Module Script.

Record t := {
  load : option error;
  put : option error;
  head : string -> option error;
  listing : error + list (option string);
  sign : string -> error + string }.

Definition handler (s : t) : Handler nat := fun X c n =>
  match c in call X return X * nat with
  | LoadDefaultConfig opts =>
      (match load s with
       | Some e => inl e
       | None => inr {| aws.Region := awsconfig.WithRegion opts;
                        aws.Credentials := awsconfig.WithCredentialsProvider opts |}
       end, S n)
  | PutObject _ _ => (put s, S n)
  | DeleteObject _ _ => (None, S n)
  | HeadObject _ input => (head s (HeadObjectInput.Key input), S n)
  | ListObjects _ _ =>
      (match listing s with
       | inl e => inl e
       | inr keys => inr {| ListObjectsOutput.Contents := types.Build_Object <$> keys |}
       end, S n)
  | PresignGetObject _ input _ =>
      (match sign s (GetObjectInput.Key input) with
       | inl e => inl e
       | inr u => inr {| s3.URL := u |}
       end, S n)
  | log_Printf _ _ => (tt, S n)
  end.

(** A client of bucket ["b"] at ["https://h"]. *)
Definition demoClient : Client :=
  {| client := s3.NewFromConfig
       {| aws.Region := "r";
          aws.Credentials := credentials.NewStaticCredentialsProvider "id" "secret" "" |}
       (fun _ => {| s3.BaseEndpoint := Some "https://h"; s3.UsePathStyle := true |});
     bucket := "b";
     endpoint := "https://h" |}.

(** Path-style URL of a key, with a query that differs from run to run. *)
Definition pathURL (query key : string) : string :=
  "https://h/b/" ++ key ++ "?X-Amz-Signature=" ++ query.

(** Everything works; three objects are listed. *)
Definition healthy : t :=
  {| load := None; put := None; head := fun _ => None;
     listing := inr [Some "A"; Some "B"; Some "C"];
     sign := fun key => inr (pathURL "s1" key) |}.

(** Signing fails for the keys in [broken]. *)
Definition failing (broken : list string) : t :=
  {| load := None; put := None; head := fun _ => None;
     listing := inr [Some "A"; Some "B"; Some "C"];
     sign := fun key =>
       if decide (key ∈ broken) then inl (sdk_Error ("cannot sign " ++ key))
       else inr (pathURL "s1" key) |}.

(** The second of three listed objects comes without a key. *)
Definition keyless : t :=
  {| load := None; put := None; head := fun _ => None;
     listing := inr [Some "A"; None; Some "C"];
     sign := fun key => inr (pathURL "s1" key) |}.

(** Nothing is listed under the prefix. *)
Definition nothingListed : t :=
  {| load := None; put := None; head := fun _ => None;
     listing := inr [];
     sign := fun key => inr (pathURL "s1" key) |}.

(** The put is refused. *)
Definition putRefused : t :=
  {| load := None; put := Some (sdk_Error "AccessDenied"); head := fun _ => None;
     listing := inr [Some "A"; Some "B"; Some "C"];
     sign := fun key => inr (pathURL "s1" key) |}.

(** The listing is refused. *)
Definition listingRefused : t :=
  {| load := None; put := None; head := fun _ => None;
     listing := inl (sdk_Error "AccessDenied");
     sign := fun key => inr (pathURL "s1" key) |}.

(** The listing of the three-object scripts, as the SDK returns it. *)
Definition threeObjects : ListObjectsOutput.t :=
  {| ListObjectsOutput.Contents :=
       types.Build_Object <$> [Some "A"; Some "B"; Some "C"] |}.

End Script.

(** ** What is read off a run *)

(** The expiration a signing call asked for. *)
Definition expiry (e : Event) : option time.Duration :=
  match e with
  | Ev c _ =>
      match c with
      | PresignGetObject _ _ opts => Some (s3.Expires opts)
      | _ => None
      end
  end.

(** Every signing call of the trace asked for expiration [d]. *)
Definition signsFor (d : time.Duration) (tr : list Event) : Prop :=
  Forall (fun e => forall d', expiry e = Some d' -> d' = d) tr.

Definition isPut (e : Event) : bool :=
  match e with
  | Ev c _ => match c with PutObject _ _ => true | _ => false end
  end.

Definition isSign (e : Event) : bool :=
  match e with
  | Ev c _ => match c with PresignGetObject _ _ _ => true | _ => false end
  end.

(** The error [New] gives for missing credentials. *)
Definition credentialsError : error := errors_New "S3 credentials not configured".

(** The error [FindKeyByPresignedURL] gives when nothing matches. *)
Definition notFoundError : error :=
  fmt_Errorf "object not found for the given presigned URL".

(** A record that reports a failed signing call. *)
Definition failed (r : presignedURLResult) : Prop := is_Some (err r).

#[global] Instance failed_dec (r : presignedURLResult) : Decision (failed r).
Proof. unfold failed. apply _. Defined.

(** A record that carries the URL of a successful signing call. *)
Definition succeeded (r : presignedURLResult) : Prop := err r = None.

#[global] Instance succeeded_dec (r : presignedURLResult) : Decision (succeeded r).
Proof. unfold succeeded. apply _. Defined.

(** What a record leaves in its slot of the output: its URL, or the
    zero value of the pre-sized slice when the signing failed. *)
Definition slot (r : presignedURLResult) : string :=
  match err r with
  | None => url r
  | Some _ => ""
  end.

(** One turn of the receiving loop on the output buffer. *)
Definition store (buf : list string) (r : presignedURLResult) : list string :=
  match err r with
  | None => <[index r := url r]> buf
  | Some _ => buf
  end.

(** The error of the first failed record of a sequence. *)
Definition firstFailure (rs : list presignedURLResult) : option error :=
  head (omap err rs).

(** The records the goroutines hold, in listing order, once all have
    made their signing call in the order [order] from the world [w]. *)
Definition signed {W : Type} (h : Handler W) (c : Client)
  (contents : list types.Object) (order : list nat) (w : W)
  : list presignedURLResult :=
  match run h (runWorkers c contents order (replicate (length contents) None)) w with
  | (Returned held, _) => omap id held
  | (Panicked _, _) => []
  end.

(** The three-way outcome of [GetObjects] on a listing of [n] objects,
    read off the records [rs] in listing order and the error of the
    first failure received. *)
Definition verdict (n : nat) (rs : list presignedURLResult) (first : option error)
  : option (list string) * option error :=
  let failures := length (filter failed rs) in
  if (failures =? n)%nat then
    (None, Some (Errorf_w "failed to get presigned URLs: %w" first))
  else if (0 <? failures)%nat then
    (Some (filter (fun u => u <> "") (slot <$> rs)), None)
  else (Some (slot <$> rs), None).

(** The expiration rule as the specification words it: every signing
    call the client makes, at any entry point, asks for fifteen minutes. *)
Definition expirationAsSpecified : Prop :=
  forall (W : Type) (h : Handler W) (w : W) (c : Client) (key : string)
    (expiration : time.Duration),
  signsFor fifteenMinutes (trace h (GetPresignedURL c key expiration) w).

(** Signing the listed objects one after the other, as the search loop
    does for the objects it passes over. *)
Fixpoint signEach (c : Client) (contents : list types.Object)
  : Prog (list (string * option error)) :=
  match contents with
  | [] => Ret []
  | obj :: rest =>
      let* key := deref (types.Key obj) in
      let* signed := GetPresignedURL c key fifteenMinutes in
      let* more := signEach c rest in
      Ret (signed :: more)
  end.

(** A signing result that identifies the target: the call succeeded and
    the two URLs agree once normalized. *)
Definition matches (target : string) (signed : string * option error) : Prop :=
  signed.2 = None /\ normalizeURL signed.1 = normalizeURL target.

(** ** More that is read off a run *)

(** The SDK client a call goes through. *)
Definition handleOf (e : Event) : option s3.Client :=
  match e with
  | Ev c _ =>
      match c with
      | PutObject cl _ | DeleteObject cl _ | HeadObject cl _ | ListObjects cl _ => Some cl
      | PresignGetObject pc _ _ => Some (s3.client pc)
      | _ => None
      end
  end.

(** The bucket a call names. *)
Definition bucketOf (e : Event) : option string :=
  match e with
  | Ev c _ =>
      match c with
      | PutObject _ input => Some (PutObjectInput.Bucket input)
      | DeleteObject _ input => Some (DeleteObjectInput.Bucket input)
      | HeadObject _ input => Some (HeadObjectInput.Bucket input)
      | ListObjects _ input => Some (ListObjectsInput.Bucket input)
      | PresignGetObject _ input _ => Some (GetObjectInput.Bucket input)
      | _ => None
      end
  end.

(** The object, bucket and key, a put, delete, head or signing call is
    about. *)
Definition objectOf (e : Event) : option (string * string) :=
  match e with
  | Ev c _ =>
      match c with
      | PutObject _ input => Some (PutObjectInput.Bucket input, PutObjectInput.Key input)
      | DeleteObject _ input =>
          Some (DeleteObjectInput.Bucket input, DeleteObjectInput.Key input)
      | HeadObject _ input => Some (HeadObjectInput.Bucket input, HeadObjectInput.Key input)
      | PresignGetObject _ input _ =>
          Some (GetObjectInput.Bucket input, GetObjectInput.Key input)
      | _ => None
      end
  end.

(** The key a signing call signs. *)
Definition signedKey (e : Event) : option string :=
  match e with
  | Ev c _ =>
      match c with
      | PresignGetObject _ input _ => Some (GetObjectInput.Key input)
      | _ => None
      end
  end.

(** A call that changes the bucket: a put or a delete. *)
Definition isWrite (e : Event) : bool :=
  match e with
  | Ev c _ =>
      match c with
      | PutObject _ _ | DeleteObject _ _ => true
      | _ => false
      end
  end.

Definition isDelete (e : Event) : bool :=
  match e with
  | Ev c _ => match c with DeleteObject _ _ => true | _ => false end
  end.

(** The error the SDK answered a call with, if it failed. *)
Definition answerError (e : Event) : option error :=
  match e with
  | Ev c x =>
      match c in call X return X -> option error with
      | LoadDefaultConfig _ => fun x => match x with inl err => Some err | inr _ => None end
      | PutObject _ _ | DeleteObject _ _ | HeadObject _ _ => fun x => x
      | ListObjects _ _ => fun x => match x with inl err => Some err | inr _ => None end
      | PresignGetObject _ _ _ =>
          fun x => match x with inl err => Some err | inr _ => None end
      | log_Printf _ _ => fun _ => None
      end x
  end.

(** The line of the receiving loop that reports a failed signing: the
    index and the error it prints. *)
Definition failureLine (e : Event) : option (nat * error) :=
  match e with
  | Ev c _ =>
      match c with
      | log_Printf format [argInt idx; argError e] =>
          if String.eqb format
               "[go-s3 GetObjects] ERROR: Failed to get presigned URL for index %d: %v"
          then Some (idx, e) else None
      | _ => None
      end
  end.

(** The warning line of a partial failure: the two counts it prints. *)
Definition warningLine (e : Event) : option (nat * nat) :=
  match e with
  | Ev c _ =>
      match c with
      | log_Printf format [argInt failures; argInt total] =>
          if String.eqb format
               "[go-s3 GetObjects] WARNING: %d out of %d presigned URLs failed to generate"
          then Some (failures, total) else None
      | _ => None
      end
  end.

(** Every call of the trace goes through the client's own SDK handle and
    names the client's own bucket. *)
Definition confined (c : Client) (e : Event) : Prop :=
  (forall cl, handleOf e = Some cl -> cl = client c) /\
  (forall b, bucketOf e = Some b -> b = bucket c).

(** [errors.Is(err, target)] for the errors of this package: [target] is
    [err] itself or is reached from it by unwrapping [%w]. *)
Fixpoint errors_Is (err target : error) : Prop :=
  err = target \/
  match err with
  | fmt_Errorf_w _ inner => errors_Is inner target
  | _ => False
  end.

(** The calls the methods make, by name. *)
Definition callList (c : Client) (prefix : string) : call (error + ListObjectsOutput.t) :=
  ListObjects (client c)
    {| ListObjectsInput.Bucket := bucket c; ListObjectsInput.Prefix := prefix |}.

Definition callSign (c : Client) (key : string) (expiration : time.Duration)
  : call (error + s3.PresignedHTTPRequest) :=
  PresignGetObject (s3.NewPresignClient (client c))
    {| GetObjectInput.Bucket := bucket c; GetObjectInput.Key := key |}
    {| s3.Expires := expiration |}.

Definition callPut (c : Client) (objectKey : string) (body : io_Reader)
  (contentType : string) : call (option error) :=
  PutObject (client c)
    {| PutObjectInput.Bucket := bucket c;
       PutObjectInput.Key := objectKey;
       PutObjectInput.Body := body;
       PutObjectInput.ContentType := contentType |}.

Definition callHead (c : Client) (key : string) : call (option error) :=
  HeadObject (client c)
    {| HeadObjectInput.Bucket := bucket c; HeadObjectInput.Key := key |}.

Definition callDelete (c : Client) (key : string) : call (option error) :=
  DeleteObject (client c)
    {| DeleteObjectInput.Bucket := bucket c; DeleteObjectInput.Key := key |}.

(** The keys signed along a trace, in order. *)
Definition signedKeys (tr : list Event) : list string := omap signedKey tr.

(** The error [err] comes from a failure the SDK answered during the
    run: some call of the trace failed with an error that [err] is or
    wraps. *)
Definition caused (err : error) (tr : list Event) : Prop :=
  exists ev e, ev ∈ tr /\ answerError ev = Some e /\ errors_Is err e.

(** A listed object that names a key. *)
Definition keyed (obj : types.Object) : Prop := is_Some (types.Key obj).

(** The record the goroutine of index [idx] sends, by the answer its
    signing call got. *)
Definition recordOf (idx : nat) (answer : error + s3.PresignedHTTPRequest)
  : presignedURLResult :=
  match answer with
  | inl e =>
      {| index := idx; url := "";
         err := Some (fmt_Errorf_w "failed to generate presigned URL: %w" e) |}
  | inr request => {| index := idx; url := s3.URL request; err := None |}
  end.

(** What the SDK's presigner returns on success: a request that has a
    URL. *)
Definition signsURLs {W : Type} (h : Handler W) : Prop :=
  forall pc input opts w request w',
    h _ (PresignGetObject pc input opts) w = (inr request, w') ->
    s3.URL request <> "".

(** * Proofs *)

(** ** Running programs *)

Section Runs.
Context {W : Type} (h : Handler W).

Lemma run_bind {A B : Type} (m : Prog A) (f : A -> Prog B) (w : W) :
  run h (bind m f) w =
  match run h m w with
  | (Returned a, w') => run h (f a) w'
  | (Panicked msg, w') => (Panicked msg, w')
  end.
Proof.
  revert w. induction m as [a|X c k IH|msg]; intros w; simpl; try reflexivity.
  destruct (h X c w) as [x w']. apply IH.
Qed.

Lemma trace_bind {A B : Type} (m : Prog A) (f : A -> Prog B) (w : W) :
  trace h (bind m f) w =
  (trace h m w ++
   match run h m w with
   | (Returned a, w') => trace h (f a) w'
   | (Panicked _, _) => []
   end)%list.
Proof.
  revert w. induction m as [a|X c k IH|msg]; intros w; simpl; try reflexivity.
  destruct (h X c w) as [x w']. simpl. f_equal. apply IH.
Qed.

Lemma run_perform {X : Type} (c : call X) (w : W) :
  run h (perform c) w = (Returned (h X c w).1, (h X c w).2).
Proof. unfold perform. simpl. now destruct (h X c w). Qed.

Lemma trace_perform {X : Type} (c : call X) (w : W) :
  trace h (perform c) w = [Ev c (h X c w).1].
Proof. unfold perform. simpl. now destruct (h X c w). Qed.

(** [GetPresignedURL] makes one signing call and never panics. *)
Lemma run_GetPresignedURL (c : Client) (key : string) (d : time.Duration) (w : W) :
  run h (GetPresignedURL c key d) w =
  match h _ (PresignGetObject (s3.NewPresignClient (client c))
               {| GetObjectInput.Bucket := bucket c; GetObjectInput.Key := key |}
               {| s3.Expires := d |}) w with
  | (inl e, w') =>
      (Returned ("", Some (fmt_Errorf_w "failed to generate presigned URL: %w" e)), w')
  | (inr request, w') => (Returned (s3.URL request, None), w')
  end.
Proof.
  unfold GetPresignedURL. simpl.
  destruct (h _ _ w) as [[e|request] w']; reflexivity.
Qed.

Lemma trace_GetPresignedURL (c : Client) (key : string) (d : time.Duration) (w : W) :
  trace h (GetPresignedURL c key d) w =
  [Ev (PresignGetObject (s3.NewPresignClient (client c))
         {| GetObjectInput.Bucket := bucket c; GetObjectInput.Key := key |}
         {| s3.Expires := d |})
      (h _ (PresignGetObject (s3.NewPresignClient (client c))
         {| GetObjectInput.Bucket := bucket c; GetObjectInput.Key := key |}
         {| s3.Expires := d |}) w).1].
Proof.
  unfold GetPresignedURL. simpl.
  destruct (h _ _ w) as [[e|request] w']; reflexivity.
Qed.

(** A signing attempt returns; on failure the URL is empty. *)
Lemma GetPresignedURL_returns (c : Client) (key : string) (d : time.Duration) (w : W) :
  exists u e w', run h (GetPresignedURL c key d) w = (Returned (u, e), w') /\
                 (is_Some e -> u = "").
Proof.
  rewrite run_GetPresignedURL.
  destruct (h _ _ w) as [[e|request] w']; eexists _, _, _; (split; [reflexivity|]).
  - reflexivity.
  - intros [? ?]; discriminate.
Qed.

Lemma signsFor_app d tr1 tr2 : signsFor d tr1 -> signsFor d tr2 -> signsFor d (tr1 ++ tr2)%list.
Proof. unfold signsFor. rewrite Forall_app. tauto. Qed.

Lemma signsFor_GetPresignedURL c key d w : signsFor d (trace h (GetPresignedURL c key d) w).
Proof.
  rewrite trace_GetPresignedURL. constructor; [|constructor].
  simpl. intros d' [= <-]. reflexivity.
Qed.

End Runs.
Section NormalizeURL.

Lemma isDelim_true ch : isDelim ch = true <-> ch = "?"%char \/ ch = "#"%char.
Proof.
  unfold isDelim. rewrite orb_true_iff, !Ascii.eqb_eq. reflexivity.
Qed.

Lemma isDelim_false ch : isDelim ch = false <-> ch <> "?"%char /\ ch <> "#"%char.
Proof.
  unfold isDelim. rewrite orb_false_iff, !Ascii.eqb_neq. reflexivity.
Qed.

Lemma get_lt_length u : forall i, i < String.length u -> exists ch, String.get i u = Some ch.
Proof.
  induction u as [|c u IH]; intros i Hi; simpl in *; [lia|].
  destruct i as [|i]; [eauto|]. apply IH. lia.
Qed.

Lemma get_Some_lt u : forall i ch, String.get i u = Some ch -> i < String.length u.
Proof.
  induction u as [|c u IH]; intros i ch H; simpl in *; [discriminate|].
  destruct i as [|i]; [lia|]. apply IH in H. lia.
Qed.

Lemma substring_all u : String.substring 0 (String.length u) u = u.
Proof. induction u as [|c u IH]; simpl; [reflexivity|]. now rewrite IH. Qed.

(** The loop invariant: nothing before [i] is a delimiter. *)
Lemma normalizeURL_from_clean url steps : forall i,
  i + steps = String.length url ->
  (forall j ch, i <= j -> String.get j url = Some ch -> isDelim ch = false) ->
  normalizeURL_from url i steps = url.
Proof.
  induction steps as [|steps IH]; intros i Hlen Hclean; simpl; [reflexivity|].
  destruct (String.get i url) as [ch|] eqn:Hget; [|reflexivity].
  rewrite (Hclean i ch (le_n _) Hget).
  apply IH; [lia|]. intros j ch' Hj. apply Hclean. lia.
Qed.

Lemma normalizeURL_from_cut url steps : forall i p,
  i + steps = String.length url -> i <= p ->
  (exists ch, String.get p url = Some ch /\ isDelim ch = true) ->
  (forall j ch, i <= j < p -> String.get j url = Some ch -> isDelim ch = false) ->
  normalizeURL_from url i steps = String.substring 0 p url.
Proof.
  induction steps as [|steps IH]; intros i p Hlen Hip (ch & Hp & Hd) Hclean; simpl.
  - apply get_Some_lt in Hp. lia.
  - destruct (String.get i url) as [c|] eqn:Hget.
    + destruct (isDelim c) eqn:Hc.
      * destruct (decide (i = p)) as [->|Hne]; [reflexivity|].
        rewrite (Hclean i c) in Hc; [discriminate|lia|exact Hget].
      * assert (i <> p) by (intros ->; congruence).
        apply IH; [lia|lia|eauto|]. intros j c' Hj. apply Hclean. lia.
    + apply get_Some_lt in Hp.
      destruct (get_lt_length url i) as [c Hc]; [lia|congruence].
Qed.

(** A string with a delimiter has a first one. *)
Lemma firstDelim_search u n :
  (forall j ch, j < n -> String.get j u = Some ch -> isDelim ch = false) \/
  (exists p, p < n /\ firstDelimAt u p).
Proof.
  induction n as [|n [IH|(p & Hp & IH)]].
  - left. intros j ch Hj. lia.
  - destruct (String.get n u) as [c|] eqn:Hget.
    + destruct (isDelim c) eqn:Hc.
      * right. exists n. split; [lia|]. split; eauto.
      * left. intros j ch Hj Hj'. destruct (decide (j = n)) as [->|Hne].
        -- congruence.
        -- apply (IH j); [lia|exact Hj'].
    + left. intros j ch Hj Hj'. destruct (decide (j = n)) as [->|Hne].
      * congruence.
      * apply (IH j); [lia|exact Hj'].
  - right. exists p. split; [lia|exact IH].
Qed.

Lemma firstDelim_exists u ch :
  contains ch u -> isDelim ch = true -> exists p, firstDelimAt u p.
Proof.
  intros [i Hi] Hd. destruct (firstDelim_search u (S i)) as [Hnone|(p & _ & Hp)].
  - rewrite (Hnone i ch) in Hd; [discriminate|lia|exact Hi].
  - now exists p.
Qed.

End NormalizeURL.

(** C4. [normalizeURL u] is [u] itself when [u] contains neither ['?']
    nor ['#']; otherwise there is a first position holding either of the
    two and [normalizeURL u] is the prefix of [u] strictly before it; and
    [normalizeURL "https://h/k?X=1#frag" = "https://h/k"]. *)
Theorem normalizeURL_spec :
  (forall u, ~ contains "?" u -> ~ contains "#" u -> normalizeURL u = u) /\
  (forall u, contains "?" u \/ contains "#" u ->
     exists i, firstDelimAt u i /\ normalizeURL u = String.substring 0 i u) /\
  (forall u i, firstDelimAt u i -> normalizeURL u = String.substring 0 i u) /\
  normalizeURL "https://h/k?X=1#frag" = "https://h/k".
Proof.
  assert (Hcut : forall u i, firstDelimAt u i ->
                 normalizeURL u = String.substring 0 i u).
  { intros u i [Hi Hbefore].
    apply normalizeURL_from_cut; [reflexivity|lia|exact Hi|].
    intros j ch [_ Hj]. now apply Hbefore. }
  split; [|split; [|split]].
  - intros u Hq Hh. apply normalizeURL_from_clean; [reflexivity|].
    intros j ch _ Hget. apply isDelim_false. split; intros ->.
    + apply Hq. now exists j.
    + apply Hh. now exists j.
  - intros u Hc.
    assert (exists p, firstDelimAt u p) as [p Hp].
    { destruct Hc as [Hc|Hc]; eapply firstDelim_exists; eauto. }
    exists p. split; [exact Hp|]. now apply Hcut.
  - exact Hcut.
  - reflexivity.
Qed.

(** ** Construction *)

(** C7. [New] fails with the credentials error, before any call to the
    SDK, whenever the access key or the secret key is empty, whatever the
    bucket, region and endpoint; with both keys non-empty it goes on to
    load the SDK configuration and its result is that of the load, never
    the credentials error. *)
Theorem New_credentials (W : Type) (h : Handler W) (w : W) (cfg : Config) :
  (AccessKeyID cfg = "" \/ SecretAccessKey cfg = "" ->
     run h (New cfg) w = (Returned (None, Some credentialsError), w) /\
     trace h (New cfg) w = []) /\
  (AccessKeyID cfg <> "" -> SecretAccessKey cfg <> "" ->
     (forall cl w', run h (New cfg) w <> (Returned (cl, Some credentialsError), w')) /\
     run h (New cfg) w =
       match h _ (LoadDefaultConfig
                    {| awsconfig.WithRegion := Region cfg;
                       awsconfig.WithCredentialsProvider :=
                         credentials.NewStaticCredentialsProvider
                           (AccessKeyID cfg) (SecretAccessKey cfg) "" |}) w with
       | (inl e, w') =>
           (Returned (None, Some (fmt_Errorf_w "failed to load AWS config: %w" e)), w')
       | (inr awsCfg, w') =>
           (Returned (Some {| client := {| s3.config := awsCfg;
                                           s3.options :=
                                             {| s3.BaseEndpoint := Some (Endpoint cfg);
                                                s3.UsePathStyle := true |} |};
                              bucket := BucketName cfg;
                              endpoint := Endpoint cfg |}, None), w')
       end).
Proof.
  split.
  - intros Hempty. unfold New.
    assert ((String.eqb (AccessKeyID cfg) "" || String.eqb (SecretAccessKey cfg) "")%bool
            = true) as ->.
    { apply orb_true_iff. rewrite !String.eqb_eq. exact Hempty. }
    split; reflexivity.
  - intros Hid Hsecret. unfold New.
    assert ((String.eqb (AccessKeyID cfg) "" || String.eqb (SecretAccessKey cfg) "")%bool
            = false) as ->.
    { apply orb_false_iff. rewrite !String.eqb_neq. split; assumption. }
    simpl. destruct (h _ _ w) as [[e|awsCfg] w']; simpl.
    + split; [|reflexivity]. intros cl w'' Heq. discriminate Heq.
    + split; [|reflexivity]. intros cl w'' Heq. discriminate Heq.
Qed.

(** ** Upload *)

(** C5. [UploadFile] starts with the one put-object request it makes,
    whose key is exactly [objectID ++ "/" ++ key].  When that put and the
    signing call for the same key (for fifteen minutes) both succeed,
    [UploadFile] returns the URL the signing call produced, with no
    error, after these two calls and no other; and it succeeds in no
    other way: a successful return always is the URL of that signing
    call. *)
Theorem UploadFile_composite_key (W : Type) (h : Handler W) (w : W) (c : Client)
  (objectID key : string) (body : io_Reader) (contentType : string) :
  let objectKey := objectID ++ "/" ++ key in
  let putCall := PutObject (client c)
    {| PutObjectInput.Bucket := bucket c;
       PutObjectInput.Key := objectKey;
       PutObjectInput.Body := body;
       PutObjectInput.ContentType := contentType |} in
  let signCall := PresignGetObject (s3.NewPresignClient (client c))
    {| GetObjectInput.Bucket := bucket c; GetObjectInput.Key := objectKey |}
    {| s3.Expires := fifteenMinutes |} in
  (exists answer rest,
     trace h (UploadFile c objectID key body contentType) w = Ev putCall answer :: rest /\
     Forall (fun e => isPut e = false) rest) /\
  (forall w1 request w2,
     h _ putCall w = (None, w1) ->
     h _ signCall w1 = (inr request, w2) ->
     run h (UploadFile c objectID key body contentType) w
       = (Returned (s3.URL request, None), w2) /\
     trace h (UploadFile c objectID key body contentType) w
       = [Ev putCall None; Ev signCall (inr request)]) /\
  (forall presignedURL w',
     run h (UploadFile c objectID key body contentType) w
       = (Returned (presignedURL, None), w') ->
     exists request,
       trace h (UploadFile c objectID key body contentType) w
         = [Ev putCall None; Ev signCall (inr request)] /\
       presignedURL = s3.URL request).
Proof.
  intros objectKey putCall signCall. unfold UploadFile. fold objectKey. fold putCall.
  simpl. destruct (h _ putCall w) as [[e|] w1] eqn:Hput; simpl.
  - split; [|split].
    + eexists _, _. split; [reflexivity|constructor].
    + intros w1' request w2 Heq. discriminate Heq.
    + intros u w' Heq. discriminate Heq.
  - fold signCall. destruct (h _ signCall w1) as [[e|request] w2] eqn:Hsign; simpl.
    + split; [|split].
      * eexists _, _. split; [reflexivity|]. repeat constructor.
      * intros w1' request w2' [= <-] Heq. rewrite Hsign in Heq. discriminate Heq.
      * intros u w' Heq. discriminate Heq.
    + split; [|split].
      * eexists _, _. split; [reflexivity|]. repeat constructor.
      * intros w1' request' w2' [= <-] Heq. rewrite Hsign in Heq.
        injection Heq as <- <-. split; reflexivity.
      * intros u w' [= <- <-]. exists request. split; reflexivity.
Qed.

Lemma UploadFile_composite_key_witness :
  run (Script.handler Script.healthy)
      (UploadFile Script.demoClient "obj" "f.jpg" [] "image/jpeg") 0
    = (Returned (Script.pathURL "s1" "obj/f.jpg", None), 2) /\
  signedKeys (trace (Script.handler Script.healthy)
                (UploadFile Script.demoClient "obj" "f.jpg" [] "image/jpeg") 0)
    = ["obj/f.jpg"].
Proof.
  destruct (proj1 (proj2 (UploadFile_composite_key nat (Script.handler Script.healthy) 0
                            Script.demoClient "obj" "f.jpg" [] "image/jpeg"))
              1 {| s3.URL := Script.pathURL "s1" "obj/f.jpg" |} 2 eq_refl eq_refl)
    as [Hrun Htrace].
  split; [exact Hrun|]. rewrite Htrace. reflexivity.
Defined.

(** ** Existence check *)

(** C6. [FileExists] never returns an error: its result is [(true, nil)]
    when the head-object call succeeds and [(false, nil)] whatever error
    that call fails with. *)
Theorem FileExists_never_errors (W : Type) (h : Handler W) (w : W) (c : Client)
  (key : string) :
  let headCall := HeadObject (client c)
    {| HeadObjectInput.Bucket := bucket c; HeadObjectInput.Key := key |} in
  (exists found w', run h (FileExists c key) w = (Returned (found, None), w')) /\
  trace h (FileExists c key) w = [Ev headCall (h _ headCall w).1] /\
  match h _ headCall w with
  | (None, w') => run h (FileExists c key) w = (Returned (true, None), w')
  | (Some _, w') => run h (FileExists c key) w = (Returned (false, None), w')
  end.
Proof.
  intros headCall. unfold FileExists. fold headCall. simpl.
  destruct (h _ headCall w) as [[e|] w']; simpl.
  - split; [eexists _, _; reflexivity|]. split; reflexivity.
  - split; [eexists _, _; reflexivity|]. split; reflexivity.
Qed.

(** ** The batch listing *)

Section Lists.
Context {A : Type}.

Lemma all_Some_fmap (l : list (option A)) :
  Forall is_Some l -> l = Some <$> omap id l.
Proof.
  induction 1 as [|x l [a ->] _ IH]; [reflexivity|].
  change (Some a :: l = Some a :: (Some <$> omap id l)). now f_equal.
Qed.

Lemma omap_lookup_shift (x : A) (l : list A) (js : list nat) :
  omap (fun i => (x :: l) !! i) (S <$> js) = omap (fun i => l !! i) js.
Proof.
  induction js as [|j js IH]; [reflexivity|].
  rewrite fmap_cons. cbn [omap list_omap]. rewrite <- IH. reflexivity.
Qed.

Lemma omap_lookup_seq (l : list A) :
  omap (fun i => l !! i) (seq 0 (length l)) = l.
Proof.
  induction l as [|x l IH]; [reflexivity|].
  cbn [length seq]. rewrite <- fmap_S_seq. cbn [omap list_omap].
  change ((x :: l) !! 0) with (Some x).
  f_equal. etransitivity; [apply omap_lookup_shift|exact IH].
Qed.

Lemma omap_lookup_Permutation (l : list A) (order : list nat) :
  order ≡ₚ seq 0 (length l) -> omap (fun i => l !! i) order ≡ₚ l.
Proof. intros ->. now rewrite omap_lookup_seq. Qed.

End Lists.

Section Workers.
Context {W : Type} (h : Handler W) (c : Client) (contents : list types.Object).

Lemma run_deref_Some {A : Type} (a : A) (w : W) : run h (deref (Some a)) w = (Returned a, w).
Proof. reflexivity. Qed.

Lemma trace_deref {A : Type} (p : option A) (w : W) : trace h (deref p) w = [].
Proof. now destruct p. Qed.

Lemma index_recordOf (idx : nat) (answer : error + s3.PresignedHTTPRequest) :
  index (recordOf idx answer) = idx.
Proof. now destruct answer. Qed.

Lemma recordOf_failed_empty (idx : nat) (answer : error + s3.PresignedHTTPRequest) :
  failed (recordOf idx answer) -> url (recordOf idx answer) = "".
Proof. destruct answer; [reflexivity|]. intros [? ?]. discriminate. Qed.

(** A goroutine whose object names a key makes one signing call, for
    that key, and sends the record of the answer. *)
Lemma run_worker_keyed (idx : nat) (obj : types.Object) (key : string) (w : W) :
  types.Key obj = Some key ->
  run h (worker c idx obj) w
    = (Returned (recordOf idx (h _ (callSign c key fifteenMinutes) w).1),
       (h _ (callSign c key fifteenMinutes) w).2) /\
  trace h (worker c idx obj) w
    = [Ev (callSign c key fifteenMinutes) (h _ (callSign c key fifteenMinutes) w).1].
Proof.
  intros Hkey. unfold worker. rewrite Hkey. cbn [deref bind]. split.
  - rewrite run_bind, run_GetPresignedURL. fold (callSign c key fifteenMinutes).
    destruct (h _ (callSign c key fifteenMinutes) w) as [[e|request] w']; reflexivity.
  - rewrite trace_bind, trace_GetPresignedURL. fold (callSign c key fifteenMinutes).
    destruct (GetPresignedURL_returns h c key fifteenMinutes w) as (u & e & w' & -> & _).
    reflexivity.
Qed.

(** A goroutine whose object has a nil key panics before any call. *)
Lemma run_worker_nil (idx : nat) (obj : types.Object) (w : W) :
  types.Key obj = None ->
  (exists msg, run h (worker c idx obj) w = (Panicked msg, w)) /\
  trace h (worker c idx obj) w = [].
Proof.
  intros Hkey. unfold worker. rewrite Hkey. cbn [deref bind]. split; [eexists|]; reflexivity.
Qed.

(** The trace of a goroutine, whatever its object. *)
Lemma trace_worker (idx : nat) (obj : types.Object) (w : W) :
  trace h (worker c idx obj) w
  = match types.Key obj with
    | Some key => trace h (GetPresignedURL c key fifteenMinutes) w
    | None => []
    end.
Proof.
  destruct (types.Key obj) as [key|] eqn:Hkey.
  - rewrite (proj2 (run_worker_keyed idx obj key w Hkey)).
    symmetry. apply trace_GetPresignedURL.
  - apply (run_worker_nil idx obj w Hkey).
Qed.

(** When every listed object names a key the goroutines never panic;
    each one named in [order] ends up holding the record of the answer
    its signing call got, for the key of its own object, and the others
    are left alone. *)
Lemma run_runWorkers (order : list nat) :
  Forall keyed contents ->
  forall (held : list (option presignedURLResult)) (w : W),
  exists held' w',
    run h (runWorkers c contents order held) w = (Returned held', w') /\
    length held' = length held /\
    (forall i, i ∉ order -> held' !! i = held !! i) /\
    (forall i, i ∈ order -> i < length contents -> i < length held ->
       exists obj key w0,
         contents !! i = Some obj /\ types.Key obj = Some key /\
         held' !! i = Some (Some (recordOf i (h _ (callSign c key fifteenMinutes) w0).1)) /\
         Ev (callSign c key fifteenMinutes) (h _ (callSign c key fifteenMinutes) w0).1
           ∈ trace h (runWorkers c contents order held) w).
Proof.
  intros Hkeyed.
  induction order as [|idx rest IH]; intros held w; cbn [runWorkers].
  - eexists _, _. split; [reflexivity|]. split; [reflexivity|].
    split; [reflexivity|]. intros i Hi. inversion Hi.
  - destruct (contents !! idx) as [obj|] eqn:Hobj.
    + assert (Hk : keyed obj).
      { rewrite Forall_forall in Hkeyed. apply Hkeyed.
        now apply list_elem_of_lookup_2 in Hobj. }
      destruct Hk as [key Hkey].
      destruct (run_worker_keyed idx obj key w Hkey) as [Hrun Htrace].
      rewrite run_bind, trace_bind, Hrun, Htrace.
      set (answer := (h _ (callSign c key fifteenMinutes) w).1) in *.
      set (w1 := (h _ (callSign c key fifteenMinutes) w).2) in *.
      destruct (IH (<[idx := Some (recordOf idx answer)]> held) w1)
        as (held' & w' & Hrest & Hlen & Hout & Hin).
      rewrite length_insert in Hlen, Hin.
      exists held', w'. split; [exact Hrest|]. split; [exact Hlen|]. split.
      * intros i Hi. rewrite not_elem_of_cons in Hi. destruct Hi as [Hne Hi].
        rewrite (Hout i Hi). now apply list_lookup_insert_ne.
      * intros i Hi Hic Hih. destruct (decide (i ∈ rest)) as [Hrest'|Hrest'].
        -- destruct (Hin i Hrest' Hic Hih) as (o & k & w0 & Ho & Hk & Hheld & Hev).
           exists o, k, w0. split; [exact Ho|]. split; [exact Hk|].
           split; [exact Hheld|]. apply elem_of_app. now right.
        -- apply elem_of_cons in Hi. destruct Hi as [->|Hi]; [|contradiction].
           exists obj, key, w. split; [exact Hobj|]. split; [exact Hkey|]. split.
           ++ rewrite (Hout idx Hrest'). now apply list_lookup_insert_eq.
           ++ apply elem_of_app. left. now left.
    + destruct (IH held w) as (held' & w' & Hrun & Hlen & Hout & Hin).
      exists held', w'. split; [exact Hrun|]. split; [exact Hlen|]. split.
      * intros i Hi. rewrite not_elem_of_cons in Hi. now apply Hout.
      * intros i Hi Hic Hih. apply elem_of_cons in Hi. destruct Hi as [->|Hi].
        -- apply lookup_lt_is_Some in Hic. rewrite Hobj in Hic.
           destruct Hic as [? ?]; discriminate.
        -- now apply Hin.
Qed.

(** A goroutine scheduled on an object with a nil key panics, and the
    program with it. *)
Lemma runWorkers_panics (order : list nat) :
  (exists i obj, i ∈ order /\ contents !! i = Some obj /\ types.Key obj = None) ->
  forall (held : list (option presignedURLResult)) (w : W),
  exists msg w', run h (runWorkers c contents order held) w = (Panicked msg, w').
Proof.
  induction order as [|idx rest IH]; intros (i & obj & Hi & Hobj & Hnil) held w.
  - inversion Hi.
  - cbn [runWorkers]. destruct (contents !! idx) as [obj0|] eqn:Hobj0.
    + destruct (types.Key obj0) as [key|] eqn:Hkey.
      * rewrite run_bind, (proj1 (run_worker_keyed idx obj0 key w Hkey)).
        apply IH. exists i, obj. split; [|auto].
        apply elem_of_cons in Hi. destruct Hi as [->|Hi]; [|exact Hi].
        congruence.
      * rewrite run_bind.
        destruct (proj1 (run_worker_nil idx obj0 w Hkey)) as [msg ->]. eauto.
    + apply IH. exists i, obj. split; [|auto].
      apply elem_of_cons in Hi. destruct Hi as [->|Hi]; [congruence|exact Hi].
Qed.

(** Either every listed object names a key, or one of them does not. *)
Lemma keyed_or_nil : Forall keyed contents \/
  exists i obj, contents !! i = Some obj /\ types.Key obj = None.
Proof.
  induction contents as [|obj rest [IH|(i & o & Ho & Hnil)]].
  - left. constructor.
  - destruct (types.Key obj) as [key|] eqn:Hkey.
    + left. constructor; [|exact IH]. unfold keyed. rewrite Hkey. eauto.
    + right. exists 0, obj. auto.
  - right. exists (S i), o. auto.
Qed.

(** Under a schedule that lets every goroutine sign, and with every
    listed object naming a key, the goroutines hold one record per listed
    object, in listing order. *)
Lemma signed_spec (order : list nat) (w : W) :
  Forall keyed contents ->
  order ≡ₚ seq 0 (length contents) ->
  exists w',
    run h (runWorkers c contents order (replicate (length contents) None)) w
      = (Returned (Some <$> signed h c contents order w), w') /\
    length (signed h c contents order w) = length contents /\
    (forall i r, signed h c contents order w !! i = Some r ->
                 index r = i /\ (failed r -> url r = "")).
Proof.
  intros Hkeyed Hperm. unfold signed.
  destruct (run_runWorkers order Hkeyed (replicate (length contents) None) w)
    as (held & w' & -> & Hlen & _ & Hin).
  rewrite length_replicate in Hlen, Hin.
  assert (Hall : forall i, i < length contents ->
            exists r, held !! i = Some (Some r) /\ index r = i /\ (failed r -> url r = "")).
  { intros i Hi. destruct (Hin i) as (obj & key & w0 & _ & _ & Hheld & _); [|exact Hi|exact Hi|].
    - rewrite Hperm. apply elem_of_seq. lia.
    - eexists. split; [exact Hheld|]. split;
        [apply index_recordOf|apply recordOf_failed_empty]. }
  assert (Hfmap : held = Some <$> omap id held).
  { apply all_Some_fmap. apply Forall_lookup. intros i x Hx.
    destruct (Hall i) as (r & Hr & _).
    - apply lookup_lt_Some in Hx. lia.
    - rewrite Hr in Hx. injection Hx as <-. eauto. }
  exists w'. split; [now rewrite <- Hfmap|]. split.
  - rewrite <- Hlen. rewrite Hfmap at 2. now rewrite length_fmap.
  - intros i r Hr.
    assert (Hheld : held !! i = Some (Some r)).
    { rewrite Hfmap, list_lookup_fmap, Hr. reflexivity. }
    destruct (Hall i) as (r' & Hr' & Hidx & Hempty).
    + apply lookup_lt_Some in Hheld. lia.
    + rewrite Hr' in Hheld. injection Hheld as ->. auto.
Qed.

(** Where a record comes from: the record at listing position [i] is
    the record of the answer the SDK gave, during the run, to the signing
    call for the key of the [i]-th listed object. *)
Lemma signed_origin (order : list nat) (w : W) :
  Forall keyed contents ->
  order ≡ₚ seq 0 (length contents) ->
  forall i r, signed h c contents order w !! i = Some r ->
  exists obj key w0,
    contents !! i = Some obj /\ types.Key obj = Some key /\
    r = recordOf i (h _ (callSign c key fifteenMinutes) w0).1 /\
    Ev (callSign c key fifteenMinutes) (h _ (callSign c key fifteenMinutes) w0).1
      ∈ trace h (runWorkers c contents order (replicate (length contents) None)) w.
Proof.
  intros Hkeyed Hperm i r Hr.
  destruct (signed_spec order w Hkeyed Hperm) as (w' & Hrun & Hlen & _).
  destruct (run_runWorkers order Hkeyed (replicate (length contents) None) w)
    as (held & w'' & Hrun' & _ & _ & Hin).
  rewrite Hrun in Hrun'. injection Hrun' as <- _.
  assert (Hi : i < length contents).
  { apply lookup_lt_Some in Hr. now rewrite Hlen in Hr. }
  destruct (Hin i) as (obj & key & w0 & Hobj & Hkey & Hheld & Hev).
  - rewrite Hperm. apply elem_of_seq. lia.
  - exact Hi.
  - now rewrite length_replicate.
  - exists obj, key, w0. split; [exact Hobj|]. split; [exact Hkey|]. split; [|exact Hev].
    rewrite list_lookup_fmap, Hr in Hheld. now injection Hheld.
Qed.

End Workers.

Section Collector.
Context {W : Type} (h : Handler W).

Lemma foldl_store_length (arr : list presignedURLResult) :
  forall buf, length (foldl store buf arr) = length buf.
Proof.
  induction arr as [|r arr IH]; intros buf; simpl; [reflexivity|].
  rewrite IH. unfold store. destruct (err r); [reflexivity|apply length_insert].
Qed.

(** A slot no successful record is tagged with keeps its content. *)
Lemma foldl_store_miss (arr : list presignedURLResult) :
  forall buf i, (forall r, r ∈ arr -> index r = i -> failed r) ->
  foldl store buf arr !! i = buf !! i.
Proof.
  induction arr as [|a arr IH]; intros buf i Hmiss; simpl; [reflexivity|].
  rewrite IH.
  - unfold store. destruct (err a) eqn:Ha; [reflexivity|].
    apply list_lookup_insert_ne. intros Heq.
    destruct (Hmiss a) as [e He]; [left|exact Heq|]. congruence.
  - intros r Hr. apply Hmiss. now right.
Qed.

(** A successful record lands in the slot of its index, whatever is
    received before or after it. *)
Lemma foldl_store_hit (arr : list presignedURLResult) :
  NoDup (index <$> arr) ->
  forall buf r, r ∈ arr -> err r = None -> index r < length buf ->
  foldl store buf arr !! index r = Some (url r).
Proof.
  induction arr as [|a arr IH]; intros Hnd buf r Hr Herr Hlt.
  - inversion Hr.
  - rewrite fmap_cons in Hnd. apply NoDup_cons in Hnd. destruct Hnd as [Hfresh Hnd].
    simpl. apply elem_of_cons in Hr. destruct Hr as [->|Hr].
    + rewrite foldl_store_miss.
      * unfold store. rewrite Herr. now apply list_lookup_insert_eq.
      * intros r' Hr' Heq. exfalso. apply Hfresh.
        rewrite <- Heq. apply list_elem_of_fmap. now exists r'.
    + apply IH; [exact Hnd|exact Hr|exact Herr|].
      unfold store. destruct (err a); [exact Hlt|]. now rewrite length_insert.
Qed.

(** The receiving loop does not panic on records whose index is in
    range; it folds [store] over them, counts the failures and keeps
    the first error it meets. *)
Lemma run_collect (arr : list presignedURLResult) :
  forall (st : collector) (w : W),
  Forall (fun r => index r < length (presignedURLs st)) arr ->
  exists w',
    run h (collect arr st) w =
    (Returned {| presignedURLs := foldl store (presignedURLs st) arr;
                 errorCount := errorCount st + length (filter failed arr);
                 firstError := match firstError st with
                               | Some e => Some e
                               | None => firstFailure arr
                               end |}, w').
Proof.
  induction arr as [|r arr IH]; intros [buf n fe] w Hrange; cbn [collect].
  - exists w. simpl. rewrite Nat.add_0_r. now destruct fe.
  - apply Forall_cons in Hrange. destruct Hrange as [Hr Hrange]. simpl in Hr, Hrange.
    destruct (err r) as [e|] eqn:Herr.
    + rewrite run_bind, run_perform. cbn [presignedURLs errorCount firstError].
      destruct (IH {| presignedURLs := buf; errorCount := S n;
                      firstError := match fe with
                                    | None => Some e
                                    | Some first => Some first
                                    end |}
                   (h _ (log_Printf
                      "[go-s3 GetObjects] ERROR: Failed to get presigned URL for index %d: %v"
                      [argInt (index r); argError e]) w).2) as [w' Hrun];
        [exact Hrange|].
      exists w'. rewrite Hrun. cbn [presignedURLs errorCount firstError foldl].
      assert (Hf : failed r) by (unfold failed; rewrite Herr; eauto).
      rewrite (filter_cons_True _ _ _ Hf). simpl length.
      assert (Hs : store buf r = buf) by (unfold store; now rewrite Herr).
      assert (Hfe : firstFailure (r :: arr) = Some e).
      { unfold firstFailure. cbn [omap list_omap]. now rewrite Herr. }
      rewrite Hs, Hfe, Nat.add_succ_r. now destruct fe.
    + cbn [presignedURLs errorCount firstError].
      destruct (decide (index r < length buf)) as [_|Hge]; [|contradiction].
      destruct (IH {| presignedURLs := <[index r := url r]> buf; errorCount := n;
                      firstError := fe |} w) as [w' Hrun].
      { simpl. now rewrite length_insert. }
      exists w'. rewrite Hrun. cbn [presignedURLs errorCount firstError foldl].
      assert (Hf : ~ failed r).
      { unfold failed. rewrite Herr. intros [? ?]. discriminate. }
      rewrite (filter_cons_False _ _ _ Hf).
      assert (Hs : store buf r = <[index r := url r]> buf)
        by (unfold store; now rewrite Herr).
      assert (Hfe : firstFailure (r :: arr) = firstFailure arr).
      { unfold firstFailure. cbn [omap list_omap]. now rewrite Herr. }
      now rewrite Hs, Hfe.
Qed.

Lemma trace_collect (arr : list presignedURLResult) :
  forall (st : collector) (w : W), Forall (fun e => isSign e = false) (trace h (collect arr st) w).
Proof.
  induction arr as [|r arr IH]; intros st w; cbn [collect]; [constructor|].
  destruct (err r) as [e|].
  - rewrite trace_bind, trace_perform, run_perform. simpl.
    constructor; [reflexivity|]. apply IH.
  - destruct (decide _); [apply IH|constructor].
Qed.

End Collector.

Section FanIn.
Context {W : Type} (h : Handler W).

Lemma received_fmap (order : list nat) (rs : list presignedURLResult) :
  received order (Some <$> rs) = omap (fun i => rs !! i) order.
Proof.
  unfold received. induction order as [|i order IH]; [reflexivity|].
  cbn [omap list_omap]. rewrite IH, list_lookup_fmap.
  now destruct (rs !! i).
Qed.

(** Records tagged with their own position carry the indices
    [0, ..., n-1]. *)
Lemma tagged_indices (rs : list presignedURLResult) :
  (forall i r, rs !! i = Some r -> index r = i) ->
  index <$> rs = seq 0 (length rs).
Proof.
  intros Htag. apply list_eq. intros i. rewrite list_lookup_fmap.
  destruct (rs !! i) as [r|] eqn:Hr; simpl.
  - rewrite (Htag i r Hr). symmetry. apply lookup_seq. split; [reflexivity|].
    now apply lookup_lt_Some in Hr.
  - symmetry. apply lookup_seq_ge. now apply lookup_ge_None in Hr.
Qed.

(** Whatever the order of reception, the buffer ends up holding, at each
    listing position, what the record of that position leaves there. *)
Lemma buffer_spec (rs arr : list presignedURLResult) :
  (forall i r, rs !! i = Some r -> index r = i) ->
  arr ≡ₚ rs ->
  foldl store (replicate (length rs) "") arr = slot <$> rs.
Proof.
  intros Htag Hperm. apply list_eq. intros i. rewrite list_lookup_fmap.
  assert (Hnd : NoDup (index <$> arr)).
  { rewrite Hperm, (tagged_indices rs Htag). apply NoDup_seq. }
  destruct (rs !! i) as [r|] eqn:Hr; simpl.
  - pose proof (Htag i r Hr) as Hidx.
    assert (Hlt : i < length rs) by now apply lookup_lt_Some in Hr.
    assert (Hin : r ∈ arr).
    { rewrite Hperm. now apply list_elem_of_lookup_2 in Hr. }
    unfold slot. destruct (err r) as [e|] eqn:Herr.
    + rewrite foldl_store_miss; [now apply lookup_replicate_2|].
      intros r' Hr' Hidx'. rewrite Hperm in Hr'.
      apply list_elem_of_lookup_1 in Hr'. destruct Hr' as [j Hj].
      rewrite (Htag j r' Hj) in Hidx'. subst j.
      rewrite Hr in Hj. injection Hj as <-. unfold failed. rewrite Herr. eauto.
    + rewrite <- Hidx. apply foldl_store_hit; [exact Hnd|exact Hin|exact Herr|].
      rewrite length_replicate, Hidx. exact Hlt.
  - apply lookup_ge_None. rewrite foldl_store_length, length_replicate.
    now apply lookup_ge_None in Hr.
Qed.

(** [GetObjects] on a listing it obtained whose objects all name a key,
    under a schedule of that listing: it returns the verdict on the
    records the goroutines signed. *)
Lemma run_GetObjects_listed (c : Client) (s : Schedule) (prefix : string)
  (objects : ListObjectsOutput.t) (w w1 : W) :
  let contents := ListObjectsOutput.Contents objects in
  let rs := signed h c contents (signing s) w1 in
  let arr := omap (fun i => rs !! i) (sending s) in
  h _ (ListObjects (client c)
         {| ListObjectsInput.Bucket := bucket c; ListObjectsInput.Prefix := prefix |}) w
    = (inr objects, w1) ->
  contents <> [] ->
  Forall keyed contents ->
  validSchedule (length contents) s ->
  arr ≡ₚ rs /\
  exists w', run h (GetObjects c s prefix) w
             = (Returned (verdict (length contents) rs (firstFailure arr)), w').
Proof.
  intros contents rs arr Hlist Hne Hkeyed [Hsign Hsend].
  destruct (signed_spec h c contents (signing s) w1 Hkeyed Hsign)
    as (w2 & Hheld & Hlen & Htag).
  fold rs in Hheld, Hlen, Htag.
  assert (Hperm : arr ≡ₚ rs).
  { apply omap_lookup_Permutation. now rewrite Hlen. }
  split; [exact Hperm|].
  unfold GetObjects. rewrite run_bind, run_perform, Hlist. cbn [fst snd].
  fold contents.
  destruct (Nat.eqb_spec (length contents) 0) as [H0|_].
  { destruct contents; [contradiction|discriminate]. }
  rewrite run_bind, Hheld, received_fmap. fold arr.
  rewrite run_bind.
  destruct (run_collect h arr
              {| presignedURLs := replicate (length contents) "";
                 errorCount := 0; firstError := None |} w2) as [w3 Hcollect].
  { cbn [presignedURLs]. rewrite length_replicate. apply Forall_forall.
    intros r Hr. rewrite Hperm in Hr. apply list_elem_of_lookup_1 in Hr.
    destruct Hr as [i Hi]. rewrite (proj1 (Htag i r Hi)).
    apply lookup_lt_Some in Hi. now rewrite <- Hlen. }
  rewrite Hcollect. cbn [presignedURLs errorCount firstError].
  assert (Hbuf : foldl store (replicate (length contents) "") arr = slot <$> rs).
  { rewrite <- Hlen. apply buffer_spec; [|exact Hperm].
    intros i r Hr. apply (Htag i r Hr). }
  assert (Hcount : length (filter failed arr) = length (filter failed rs))
    by now rewrite Hperm.
  rewrite Hbuf, Nat.add_0_l, Hcount.
  unfold verdict.
  destruct (length (filter failed rs) =? length contents)%nat; [eauto|].
  destruct (0 <? length (filter failed rs))%nat; [|eauto].
  rewrite run_bind, run_perform. eauto.
Qed.

End FanIn.

Section Policy.

Lemma failed_not_succeeded (r : presignedURLResult) : failed r <-> ~ succeeded r.
Proof.
  unfold failed, succeeded. destruct (err r); split.
  - intros _ Heq. discriminate.
  - eauto.
  - intros [? ?]. discriminate.
  - intros Hn. now destruct Hn.
Qed.

Lemma slot_succeeded (r : presignedURLResult) : succeeded r -> slot r = url r.
Proof. unfold succeeded, slot. now intros ->. Qed.

Lemma slot_failed (r : presignedURLResult) : failed r -> slot r = "".
Proof. unfold failed, slot. now intros [e ->]. Qed.

Lemma failures_none (rs : list presignedURLResult) :
  length (filter failed rs) = 0 -> Forall succeeded rs.
Proof.
  induction rs as [|r rs IH]; [constructor|].
  rewrite filter_cons. destruct (decide (failed r)) as [Hf|Hf]; [discriminate|].
  intros H0. constructor; [|now apply IH].
  destruct (decide (succeeded r)) as [Hs|Hs]; [exact Hs|].
  now apply failed_not_succeeded in Hs.
Qed.

Lemma failures_all (rs : list presignedURLResult) :
  length (filter failed rs) = length rs -> Forall failed rs.
Proof.
  induction rs as [|r rs IH]; [constructor|].
  rewrite filter_cons. destruct (decide (failed r)) as [Hf|Hf]; simpl.
  - intros [= Hlen]. constructor; [exact Hf|now apply IH].
  - intros Hlen. pose proof (length_filter failed rs). lia.
Qed.

Lemma length_succeeded (rs : list presignedURLResult) :
  length (filter succeeded rs) = length rs - length (filter failed rs).
Proof.
  induction rs as [|r rs IH]; [reflexivity|].
  pose proof (length_filter failed rs) as Hle.
  rewrite !filter_cons.
  destruct (decide (succeeded r)) as [Hs|Hs], (decide (failed r)) as [Hf|Hf]; simpl.
  - now apply failed_not_succeeded in Hf.
  - rewrite IH. lia.
  - exact IH.
  - now apply failed_not_succeeded in Hs.
Qed.

(** The filter [url != ""] keeps, of the successful URLs, the non-empty
    ones. *)
Lemma valid_slots (rs : list presignedURLResult) :
  filter (fun u => u <> "") (slot <$> rs)
  = filter (fun u => u <> "") (url <$> filter succeeded rs).
Proof.
  induction rs as [|r rs IH]; [reflexivity|].
  rewrite fmap_cons, (filter_cons succeeded).
  destruct (decide (succeeded r)) as [Hs|Hs].
  - rewrite fmap_cons, !filter_cons, (slot_succeeded r Hs), IH. reflexivity.
  - apply failed_not_succeeded in Hs. rewrite (slot_failed r Hs).
    rewrite filter_cons_False; [exact IH|]. intros Hne. now apply Hne.
Qed.

Lemma valid_slots_nonempty (rs : list presignedURLResult) :
  Forall (fun r => succeeded r -> url r <> "") rs ->
  filter (fun u => u <> "") (slot <$> rs) = url <$> filter succeeded rs.
Proof.
  intros Hne. rewrite valid_slots.
  induction Hne as [|r rs Hr _ IH]; [reflexivity|].
  rewrite (filter_cons succeeded).
  destruct (decide (succeeded r)) as [Hs|Hs]; [|exact IH].
  rewrite fmap_cons, filter_cons_True by auto. now rewrite IH.
Qed.

Lemma slots_all_succeeded (rs : list presignedURLResult) :
  Forall succeeded rs -> slot <$> rs = url <$> rs.
Proof.
  induction 1 as [|r rs Hr _ IH]; [reflexivity|].
  now rewrite !fmap_cons, IH, (slot_succeeded r Hr).
Qed.

End Policy.

(** ** The batch listing: empty, partial and total failure *)

(** C8. When the listing succeeds with no object, [GetObjects] returns
    an empty slice that is not nil and no error, and the listing call is
    the only call it makes: nothing is signed. *)
Theorem GetObjects_empty_listing (W : Type) (h : Handler W) (w w1 : W) (c : Client)
  (s : Schedule) (prefix : string) (objects : ListObjectsOutput.t) :
  let listCall := ListObjects (client c)
    {| ListObjectsInput.Bucket := bucket c; ListObjectsInput.Prefix := prefix |} in
  h _ listCall w = (inr objects, w1) ->
  ListObjectsOutput.Contents objects = [] ->
  run h (GetObjects c s prefix) w = (Returned (Some [], None), w1) /\
  trace h (GetObjects c s prefix) w = [Ev listCall (inr objects)].
Proof.
  intros listCall Hlist Hempty. unfold GetObjects. fold listCall.
  rewrite run_bind, trace_bind, run_perform, trace_perform, Hlist. cbn [fst snd].
  rewrite Hempty. split; reflexivity.
Qed.

Lemma GetObjects_empty_listing_witness :
  run (Script.handler Script.nothingListed)
      (GetObjects Script.demoClient {| signing := []; sending := [] |} "p") 0
    = (Returned (Some [], None), 1) /\
  Forall (fun e => isSign e = false)
    (trace (Script.handler Script.nothingListed)
       (GetObjects Script.demoClient {| signing := []; sending := [] |} "p") 0).
Proof.
  destruct (GetObjects_empty_listing nat (Script.handler Script.nothingListed) 0 1
              Script.demoClient {| signing := []; sending := [] |} "p"
              {| ListObjectsOutput.Contents := [] |} eq_refl eq_refl) as [Hrun Htrace].
  split; [exact Hrun|]. rewrite Htrace. repeat constructor.
Defined.

Section Listed.
Context {W : Type} (h : Handler W) (c : Client).

Lemma run_GetObjects_empty (s : Schedule) (prefix : string)
  (objects : ListObjectsOutput.t) (w w1 : W) :
  h _ (ListObjects (client c)
         {| ListObjectsInput.Bucket := bucket c; ListObjectsInput.Prefix := prefix |}) w
    = (inr objects, w1) ->
  ListObjectsOutput.Contents objects = [] ->
  run h (GetObjects c s prefix) w = (Returned (Some [], None), w1).
Proof.
  intros Hlist Hempty. unfold GetObjects.
  rewrite run_bind, run_perform, Hlist. cbn [fst snd]. now rewrite Hempty.
Qed.

(** What the goroutines call is part of what [GetObjects] calls. *)
Lemma trace_GetObjects_workers (s : Schedule) (prefix : string)
  (objects : ListObjectsOutput.t) (w w1 : W) (ev : Event) :
  let contents := ListObjectsOutput.Contents objects in
  h _ (ListObjects (client c)
         {| ListObjectsInput.Bucket := bucket c; ListObjectsInput.Prefix := prefix |}) w
    = (inr objects, w1) ->
  contents <> [] ->
  ev ∈ trace h (runWorkers c contents (signing s) (replicate (length contents) None)) w1 ->
  ev ∈ trace h (GetObjects c s prefix) w.
Proof.
  intros contents Hlist Hne Hev. unfold GetObjects.
  rewrite trace_bind, trace_perform, run_perform, Hlist. cbn [fst snd]. fold contents.
  destruct (Nat.eqb_spec (length contents) 0) as [H0|_].
  { destruct contents; [contradiction|discriminate]. }
  apply elem_of_app. right. rewrite trace_bind. apply elem_of_app. now left.
Qed.

(** With an SDK whose successful signings carry a URL, the successful
    records carry one. *)
Lemma signed_nonempty (contents : list types.Object) (order : list nat) (w : W) :
  signsURLs h ->
  Forall keyed contents ->
  order ≡ₚ seq 0 (length contents) ->
  Forall (fun r => succeeded r -> url r <> "") (signed h c contents order w).
Proof.
  intros Hsdk Hkeyed Hperm. apply Forall_lookup. intros i r Hr.
  destruct (signed_origin h c contents order w Hkeyed Hperm i r Hr)
    as (obj & key & w0 & _ & _ & -> & _).
  unfold callSign.
  destruct (h _ (PresignGetObject _ _ _) w0) as [[e|request] w'] eqn:Hanswer; cbn [fst].
  - intros Hok. discriminate Hok.
  - intros _. exact (Hsdk _ _ _ _ _ _ Hanswer).
Qed.

End Listed.

(** C1. On a listing of [M] objects that each name a key (so that each
    of the [M] signing calls is made), under any schedule, with [N] of
    the [M] signing calls failing.  The record at listing position [i] is
    the outcome of the signing call made for the [i]-th listed object.
    If [N = 0] the result is the full list of the [M] URLs in listing
    order.  If [0 < N < M] the call succeeds with exactly the [M - N]
    URLs of the successful calls, in listing order (a successful signing
    of the SDK carries a URL).  If [N = M], with at least one object, the
    call fails with an error wrapping the error of the first record
    received. *)
Theorem GetObjects_error_policy (W : Type) (h : Handler W) (w w1 : W) (c : Client)
  (s : Schedule) (prefix : string) (objects : ListObjectsOutput.t) :
  let contents := ListObjectsOutput.Contents objects in
  let M := length contents in
  let rs := signed h c contents (signing s) w1 in
  let N := length (filter failed rs) in
  let arr := omap (fun i => rs !! i) (sending s) in
  let result := (run h (GetObjects c s prefix) w).1 in
  h _ (ListObjects (client c)
         {| ListObjectsInput.Bucket := bucket c; ListObjectsInput.Prefix := prefix |}) w
    = (inr objects, w1) ->
  Forall keyed contents ->
  validSchedule M s ->
  (length rs = M /\
   forall i r, rs !! i = Some r ->
     exists obj key w0,
       contents !! i = Some obj /\ types.Key obj = Some key /\
       r = recordOf i (h _ (callSign c key fifteenMinutes) w0).1 /\
       Ev (callSign c key fifteenMinutes) (h _ (callSign c key fifteenMinutes) w0).1
         ∈ trace h (GetObjects c s prefix) w) /\
  (N = 0 -> result = Returned (Some (url <$> rs), None)) /\
  (0 < N < M -> signsURLs h ->
     result = Returned (Some (url <$> filter succeeded rs), None) /\
     length (url <$> filter succeeded rs) = M - N) /\
  (N = M -> 0 < M ->
     exists r e, head arr = Some r /\ err r = Some e /\
       result = Returned
         (None, Some (fmt_Errorf_w "failed to get presigned URLs: %w" e))).
Proof.
  intros contents M rs N arr result Hlist Hkeyed Hsched.
  destruct (signed_spec h c contents (signing s) w1 Hkeyed (proj1 Hsched))
    as (_ & _ & Hlen & _).
  fold rs M in Hlen.
  destruct (decide (M = 0)) as [HM0|HM0].
  { assert (Hnil : contents = []) by now apply length_zero_iff_nil.
    assert (Hrs : rs = []) by (apply length_zero_iff_nil; now rewrite Hlen).
    split; [|split; [|split]].
    - split; [exact Hlen|]. intros i r Hr. rewrite Hrs in Hr. discriminate Hr.
    - intros _. unfold result.
      rewrite (run_GetObjects_empty h c s prefix objects w w1 Hlist Hnil).
      now rewrite Hrs.
    - intros HN. lia.
    - intros _ HM. lia. }
  assert (Hne : contents <> []).
  { intros Heq. apply HM0. unfold M. now rewrite Heq. }
  destruct (run_GetObjects_listed h c s prefix objects w w1 Hlist Hne Hkeyed Hsched)
    as (Hperm & w' & Hrun).
  fold contents rs arr in Hperm, Hrun. fold M N in Hrun.
  assert (Hres : result = Returned (verdict M rs (firstFailure arr)))
    by (unfold result; now rewrite Hrun).
  unfold verdict in Hres. fold N in Hres.
  split; [|split; [|split]].
  - split; [exact Hlen|]. intros i r Hr.
    destruct (signed_origin h c contents (signing s) w1 Hkeyed (proj1 Hsched) i r Hr)
      as (obj & key & w0 & Hobj & Hkey & Hrec & Hev).
    exists obj, key, w0. split; [exact Hobj|]. split; [exact Hkey|].
    split; [exact Hrec|].
    now apply (trace_GetObjects_workers h c s prefix objects w w1).
  - intros H0. rewrite Hres, H0.
    destruct (Nat.eqb_spec 0 M) as [HM|_]; [lia|]. cbn [Nat.ltb Nat.leb].
    rewrite slots_all_succeeded; [reflexivity|]. now apply failures_none.
  - intros HN Hsdk.
    destruct (Nat.eqb_spec N M) as [HNM|_]; [lia|].
    destruct (Nat.ltb_spec 0 N) as [_|HN0]; [|lia].
    split.
    + rewrite Hres, valid_slots_nonempty; [reflexivity|].
      exact (signed_nonempty h c contents (signing s) w1 Hsdk Hkeyed (proj1 Hsched)).
    + rewrite length_fmap, length_succeeded. fold N. now rewrite Hlen.
  - intros HNM HM. rewrite HNM, Nat.eqb_refl in Hres.
    assert (Hall : Forall failed rs).
    { apply failures_all. fold N. now rewrite Hlen. }
    destruct arr as [|r arr'] eqn:Harr.
    { apply Permutation_nil_l in Hperm. rewrite <- Hperm in Hlen. simpl in Hlen. lia. }
    assert (Hr : failed r).
    { rewrite Forall_forall in Hall. apply Hall. rewrite <- Hperm. left. }
    destruct Hr as [e He]. exists r, e. split; [reflexivity|]. split; [exact He|].
    rewrite Hres. unfold firstFailure. cbn [omap list_omap]. rewrite He. reflexivity.
Qed.

Lemma GetObjects_error_policy_witness :
  let s := {| signing := [2; 0; 1]; sending := [0; 2; 1] |} in
  validSchedule 3 s /\
  (run (Script.handler (Script.failing ["B"]))
       (GetObjects Script.demoClient s "p") 0).1
  = Returned (Some [Script.pathURL "s1" "A"; Script.pathURL "s1" "C"], None).
Proof.
  intros s.
  assert (Hs : validSchedule 3 s).
  { split.
    - exact (Permutation_cons_append [0; 1] 2).
    - exact (perm_skip 0 (perm_swap 1 2 [])). }
  split; [exact Hs|].
  destruct (GetObjects_error_policy nat (Script.handler (Script.failing ["B"])) 0 1
              Script.demoClient s "p" Script.threeObjects eq_refl)
    as (_ & _ & Hpartial & _).
  - repeat constructor; eexists; reflexivity.
  - exact Hs.
  - destruct Hpartial as [Hresult _].
    + vm_compute. split; repeat constructor.
    + intros pc input opts w request w' Hanswer. simpl in Hanswer.
      destruct (decide _); [discriminate Hanswer|].
      injection Hanswer as <- _. intros Hurl. cbv in Hurl. discriminate Hurl.
    + rewrite Hresult. vm_compute. reflexivity.
Defined.

Section Order.

Lemma filter_sublist {A : Type} (P : A -> Prop) `{!forall x, Decision (P x)} (l : list A) :
  filter P l `sublist_of` l.
Proof.
  induction l as [|x l IH]; [constructor|].
  rewrite filter_cons. destruct (decide (P x)); now constructor.
Qed.

(** The URL list of the verdict does not depend on which failure was
    received first. *)
Lemma verdict_urls (n : nat) (rs : list presignedURLResult) (e1 e2 : option error) :
  (verdict n rs e1).1 = (verdict n rs e2).1.
Proof.
  unfold verdict. destruct (_ =? n)%nat; [reflexivity|].
  now destruct (0 <? _)%nat.
Qed.

(** The URLs returned are successful URLs, in listing order. *)
Lemma verdict_sublist (n : nat) (rs : list presignedURLResult) (e : option error)
  (l : list string) :
  (verdict n rs e).1 = Some l -> l `sublist_of` (url <$> rs).
Proof.
  unfold verdict. destruct (_ =? n)%nat; [discriminate|].
  destruct (Nat.ltb_spec 0 (length (filter failed rs))) as [_|H0]; simpl; intros [= <-].
  - rewrite valid_slots. etransitivity; [apply filter_sublist|].
    apply fmap_sublist, filter_sublist.
  - rewrite slots_all_succeeded; [reflexivity|]. apply failures_none. lia.
Qed.

End Order.

(** C2. On a non-empty listing of [M] objects that each name a key,
    whatever permutation of the listing the records are received in: the
    records are one per object, each tagged with its listing index and
    holding the outcome of the signing call made for the object at that
    index; the receiving loop writes the URL of every successful record
    into the slot of that index; and the URL list returned is the same
    for every order of reception, a subsequence of the URLs in listing
    order (all of them when no signing fails). *)
Theorem GetObjects_listing_order (W : Type) (h : Handler W) (w w1 : W) (c : Client)
  (s : Schedule) (prefix : string) (objects : ListObjectsOutput.t) :
  let contents := ListObjectsOutput.Contents objects in
  let M := length contents in
  let rs := signed h c contents (signing s) w1 in
  let arr := omap (fun i => rs !! i) (sending s) in
  h _ (ListObjects (client c)
         {| ListObjectsInput.Bucket := bucket c; ListObjectsInput.Prefix := prefix |}) w
    = (inr objects, w1) ->
  contents <> [] ->
  Forall keyed contents ->
  validSchedule M s ->
  (arr ≡ₚ rs /\ length rs = M /\
   forall i r, rs !! i = Some r ->
     index r = i /\
     exists obj key w0,
       contents !! i = Some obj /\ types.Key obj = Some key /\
       r = recordOf i (h _ (callSign c key fifteenMinutes) w0).1 /\
       Ev (callSign c key fifteenMinutes) (h _ (callSign c key fifteenMinutes) w0).1
         ∈ trace h (GetObjects c s prefix) w) /\
  (forall w2, exists st w3,
     run h (collect arr {| presignedURLs := replicate M "";
                           errorCount := 0; firstError := None |}) w2
       = (Returned st, w3) /\
     length (presignedURLs st) = M /\
     forall r, r ∈ arr -> succeeded r ->
       presignedURLs st !! index r = Some (url r)) /\
  (exists urls : option (list string),
     (forall order, order ≡ₚ seq 0 M ->
        exists e, (run h (GetObjects c {| signing := signing s; sending := order |}
                            prefix) w).1 = Returned (urls, e)) /\
     (forall l, urls = Some l -> l `sublist_of` (url <$> rs)) /\
     (Forall succeeded rs -> urls = Some (url <$> rs))).
Proof.
  intros contents M rs arr Hlist Hne Hkeyed Hsched.
  destruct (run_GetObjects_listed h c s prefix objects w w1 Hlist Hne Hkeyed Hsched)
    as (Hperm & _). fold contents rs arr in Hperm.
  destruct (signed_spec h c contents (signing s) w1 Hkeyed (proj1 Hsched))
    as (_ & _ & Hlen & Htag). fold rs M in Hlen, Htag.
  assert (Htag' : forall i r, rs !! i = Some r -> index r = i)
    by (intros i r Hr; apply (Htag i r Hr)).
  split; [|split].
  - split; [exact Hperm|]. split; [exact Hlen|]. intros i r Hr.
    split; [now apply Htag'|].
    destruct (signed_origin h c contents (signing s) w1 Hkeyed (proj1 Hsched) i r Hr)
      as (obj & key & w0 & Hobj & Hkey & Hrec & Hev).
    exists obj, key, w0. split; [exact Hobj|]. split; [exact Hkey|].
    split; [exact Hrec|].
    now apply (trace_GetObjects_workers h c s prefix objects w w1).
  - intros w2.
    destruct (run_collect h arr {| presignedURLs := replicate M "";
                                   errorCount := 0; firstError := None |} w2) as [w3 Hrun].
    { cbn [presignedURLs]. rewrite length_replicate. apply Forall_forall.
      intros r Hr. rewrite Hperm in Hr. apply list_elem_of_lookup_1 in Hr.
      destruct Hr as [i Hi]. rewrite (Htag' i r Hi).
      apply lookup_lt_Some in Hi. now rewrite <- Hlen. }
    eexists _, w3. split; [exact Hrun|]. cbn [presignedURLs].
    rewrite <- Hlen, (buffer_spec rs arr Htag' Hperm).
    split; [now rewrite length_fmap|].
    intros r Hr Hok. rewrite Hperm in Hr. apply list_elem_of_lookup_1 in Hr.
    destruct Hr as [i Hi]. rewrite (Htag' i r Hi), list_lookup_fmap, Hi.
    simpl. now rewrite slot_succeeded.
  - exists (verdict M rs None).1. split; [|split].
    + intros order Horder.
      destruct (run_GetObjects_listed h c {| signing := signing s; sending := order |}
                  prefix objects w w1 Hlist Hne Hkeyed) as (_ & w' & Hrun).
      { split; [apply Hsched|exact Horder]. }
      cbn [signing sending] in Hrun. fold contents rs M in Hrun.
      rewrite Hrun. cbn [fst].
      rewrite (verdict_urls M rs None (firstFailure (omap (fun i => rs !! i) order))).
      destruct (verdict M rs (firstFailure (omap (fun i => rs !! i) order)))
        as [urls e].
      now exists e.
    + apply verdict_sublist.
    + intros Hall. unfold verdict.
      assert (H0 : length (filter failed rs) = 0).
      { clear -Hall. induction Hall as [|r rs Hr _ IH]; [reflexivity|].
        rewrite filter_cons_False; [exact IH|]. intros Hf.
        now apply failed_not_succeeded in Hf. }
      rewrite H0. destruct (Nat.eqb_spec 0 M) as [HM|_].
      * exfalso. apply Hne. apply length_zero_iff_nil. symmetry. exact HM.
      * cbn [Nat.ltb Nat.leb fst]. now rewrite slots_all_succeeded.
Qed.

Lemma GetObjects_listing_order_witness :
  let s := {| signing := [2; 0; 1]; sending := [0; 2; 1] |} in
  validSchedule 3 s /\
  forall order, order ≡ₚ seq 0 3 ->
    exists e, (run (Script.handler Script.healthy)
                 (GetObjects Script.demoClient
                    {| signing := [2; 0; 1]; sending := order |} "p") 0).1
              = Returned (Some [Script.pathURL "s1" "A"; Script.pathURL "s1" "B";
                                Script.pathURL "s1" "C"], e).
Proof.
  intros s.
  assert (Hs : validSchedule 3 s).
  { split.
    - exact (Permutation_cons_append [0; 1] 2).
    - exact (perm_skip 0 (perm_swap 1 2 [])). }
  split; [exact Hs|].
  destruct (GetObjects_listing_order nat (Script.handler Script.healthy) 0 1
              Script.demoClient s "p" Script.threeObjects eq_refl) as (_ & _ & Hurls).
  - discriminate.
  - repeat constructor; eexists; reflexivity.
  - exact Hs.
  - destruct Hurls as (urls & Hsame & _ & Hfull).
    rewrite Hfull in Hsame.
    + exact Hsame.
    + vm_compute. repeat constructor.
Defined.

(** ** Expiration of the signed URLs *)

Section Expiration.
Context {W : Type} (h : Handler W).

Lemma signsFor_bind {A B : Type} (d : time.Duration) (m : Prog A) (f : A -> Prog B) (w : W) :
  signsFor d (trace h m w) ->
  (forall a w', signsFor d (trace h (f a) w')) ->
  signsFor d (trace h (bind m f) w).
Proof.
  intros Hm Hf. rewrite trace_bind. apply signsFor_app; [exact Hm|].
  destruct (run h m w) as [[a|msg] w']; [apply Hf|constructor].
Qed.

Lemma signsFor_unsigned (d : time.Duration) (tr : list Event) :
  Forall (fun e => isSign e = false) tr -> signsFor d tr.
Proof.
  unfold signsFor. intros Hno. eapply Forall_impl; [exact Hno|].
  intros [X c x] Hc d' Hd. destruct c; simpl in *; discriminate.
Qed.

Lemma signsFor_perform {X : Type} (d : time.Duration) (c : call X) (w : W) :
  isSign (Ev c (h X c w).1) = false -> signsFor d (trace h (perform c) w).
Proof.
  intros Hc. rewrite trace_perform. apply signsFor_unsigned.
  constructor; [exact Hc|constructor].
Qed.

Lemma signsFor_Ret {A : Type} (d : time.Duration) (a : A) (w : W) :
  signsFor d (trace h (Ret a) w).
Proof. constructor. Qed.

Lemma signsFor_UploadFile c objectID key body contentType w :
  signsFor fifteenMinutes (trace h (UploadFile c objectID key body contentType) w).
Proof.
  unfold UploadFile. apply signsFor_bind; [now apply signsFor_perform|].
  intros [e|] w'; [apply signsFor_Ret|].
  apply signsFor_bind; [apply signsFor_GetPresignedURL|].
  intros [u [e|]] w''; apply signsFor_Ret.
Qed.

Lemma signsFor_findKeyLoop c target contents :
  forall w, signsFor fifteenMinutes (trace h (findKeyLoop c target contents) w).
Proof.
  induction contents as [|obj rest IH]; intros w; cbn [findKeyLoop].
  - apply signsFor_Ret.
  - apply signsFor_bind; [rewrite trace_deref; constructor|]. intros key w0.
    apply signsFor_bind; [apply signsFor_GetPresignedURL|].
    intros [u [e|]] w'; [apply IH|].
    destruct (String.eqb _ _); [|apply IH].
    apply signsFor_bind; [rewrite trace_deref; constructor|].
    intros found w''. apply signsFor_Ret.
Qed.

Lemma signsFor_FindKeyByPresignedURL c presignedURL prefix w :
  signsFor fifteenMinutes (trace h (FindKeyByPresignedURL c presignedURL prefix) w).
Proof.
  unfold FindKeyByPresignedURL. apply signsFor_bind; [now apply signsFor_perform|].
  intros [e|objects] w'; [apply signsFor_Ret|apply signsFor_findKeyLoop].
Qed.

Lemma signsFor_runWorkers c contents order :
  forall held w, signsFor fifteenMinutes (trace h (runWorkers c contents order held) w).
Proof.
  induction order as [|idx rest IH]; intros held w; cbn [runWorkers].
  - apply signsFor_Ret.
  - destruct (contents !! idx) as [obj|]; [|apply IH].
    apply signsFor_bind; [|intros r w'; apply IH].
    rewrite trace_worker.
    destruct (types.Key obj); [apply signsFor_GetPresignedURL|constructor].
Qed.

Lemma signsFor_GetObjects c s prefix w :
  signsFor fifteenMinutes (trace h (GetObjects c s prefix) w).
Proof.
  unfold GetObjects. apply signsFor_bind; [now apply signsFor_perform|].
  intros [e|objects] w'; [apply signsFor_Ret|].
  destruct (_ =? 0)%nat; [apply signsFor_Ret|].
  apply signsFor_bind; [apply signsFor_runWorkers|]. intros held w2.
  apply signsFor_bind; [apply signsFor_unsigned, trace_collect|]. intros st w3.
  destruct (_ =? _)%nat; [apply signsFor_Ret|].
  destruct (0 <? _)%nat; [|apply signsFor_Ret].
  apply signsFor_bind; [now apply signsFor_perform|]. intros _ w4. apply signsFor_Ret.
Qed.

End Expiration.

(** C9, as the code has it.  The signing calls made by [UploadFile],
    [FindKeyByPresignedURL] and [GetObjects] all ask for an expiration of
    exactly fifteen minutes (900 seconds, in nanoseconds), written at the
    call sites; the public [GetPresignedURL] makes one signing call with
    the expiration its caller passes. *)
Theorem presign_expiration (W : Type) (h : Handler W) (w : W) (c : Client) :
  fifteenMinutes = (900 * 1000000000)%Z /\
  (forall objectID key body contentType,
     signsFor fifteenMinutes (trace h (UploadFile c objectID key body contentType) w)) /\
  (forall presignedURL prefix,
     signsFor fifteenMinutes (trace h (FindKeyByPresignedURL c presignedURL prefix) w)) /\
  (forall s prefix, signsFor fifteenMinutes (trace h (GetObjects c s prefix) w)) /\
  (forall key expiration,
     exists answer,
       trace h (GetPresignedURL c key expiration) w
       = [Ev (PresignGetObject (s3.NewPresignClient (client c))
                {| GetObjectInput.Bucket := bucket c; GetObjectInput.Key := key |}
                {| s3.Expires := expiration |}) answer]).
Proof.
  split; [reflexivity|].
  split; [intros; apply signsFor_UploadFile|].
  split; [intros; apply signsFor_FindKeyByPresignedURL|].
  split; [intros; apply signsFor_GetObjects|].
  intros key expiration. eexists. apply trace_GetPresignedURL.
Qed.

(** C9 as worded does not hold: a caller of [GetPresignedURL] who passes
    one hour gets a signing call for one hour. *)
Lemma GetPresignedURL_expiration_is_the_callers : ~ expirationAsSpecified.
Proof.
  intros Hclaim.
  specialize (Hclaim nat (Script.handler Script.healthy) 0 Script.demoClient "A" time.Hour).
  rewrite trace_GetPresignedURL in Hclaim.
  apply Forall_cons in Hclaim. destruct Hclaim as [Hhour _].
  specialize (Hhour time.Hour eq_refl). discriminate Hhour.
Qed.

(** ** Finding a key by its presigned URL *)

Section FindKey.
Context {W : Type} (h : Handler W) (c : Client).

Lemma signEach_returns (contents : list types.Object) :
  Forall keyed contents ->
  forall w, exists outs w', run h (signEach c contents) w = (Returned outs, w').
Proof.
  induction 1 as [|obj rest [key Hkey] _ IH]; intros w; cbn [signEach].
  - eexists _, _. reflexivity.
  - rewrite Hkey. cbn [deref bind]. rewrite run_bind.
    destruct (GetPresignedURL_returns h c key fifteenMinutes w)
      as (u & e & w1 & -> & _).
    rewrite run_bind. destruct (IH w1) as (outs & w2 & ->).
    eexists _, _. reflexivity.
Qed.

(** One step of [signEach], read backwards: the object named a key. *)
Lemma signEach_cons (obj : types.Object) (rest : list types.Object) (w w2 : W)
  (outs : list (string * option error)) :
  run h (signEach c (obj :: rest)) w = (Returned outs, w2) ->
  exists key sg w1 more,
    types.Key obj = Some key /\
    run h (GetPresignedURL c key fifteenMinutes) w = (Returned sg, w1) /\
    run h (signEach c rest) w1 = (Returned more, w2) /\
    outs = sg :: more.
Proof.
  cbn [signEach]. destruct (types.Key obj) as [key|]; cbn [deref bind].
  - rewrite run_bind.
    destruct (GetPresignedURL_returns h c key fifteenMinutes w)
      as (u & e & w1 & Hsg & _).
    rewrite Hsg, run_bind.
    destruct (run h (signEach c rest) w1) as [[more|msg] w2'] eqn:Hmore; cbn [run].
    + intros [= <- <-]. exists key, (u, e), w1, more. auto.
    + intros Hrun. discriminate Hrun.
  - cbn [run]. intros Hrun. discriminate Hrun.
Qed.

Lemma signEach_step (obj : types.Object) (key : string) (rest : list types.Object)
  (sg : string * option error) (more : list (string * option error)) (w w1 w2 : W) :
  types.Key obj = Some key ->
  run h (GetPresignedURL c key fifteenMinutes) w = (Returned sg, w1) ->
  run h (signEach c rest) w1 = (Returned more, w2) ->
  run h (signEach c (obj :: rest)) w = (Returned (sg :: more), w2).
Proof.
  intros Hkey Hsg Hmore. cbn [signEach]. rewrite Hkey. cbn [deref bind].
  now rewrite run_bind, Hsg, run_bind, Hmore.
Qed.

(** The loop passes over an object whose signing does not match. *)
Lemma findKeyLoop_pass (target : string) (obj : types.Object) (key : string)
  (rest : list types.Object) (sg : string * option error) (w w1 : W) :
  types.Key obj = Some key ->
  run h (GetPresignedURL c key fifteenMinutes) w = (Returned sg, w1) ->
  ~ matches target sg ->
  run h (findKeyLoop c (normalizeURL target) (obj :: rest)) w
  = run h (findKeyLoop c (normalizeURL target) rest) w1.
Proof.
  intros Hkey Hsign Hno. cbn [findKeyLoop]. rewrite Hkey. cbn [deref bind].
  rewrite run_bind, Hsign.
  destruct sg as [u [e|]]; [reflexivity|].
  destruct (String.eqb_spec (normalizeURL u) (normalizeURL target)) as [Heq|_];
    [|reflexivity].
  exfalso. apply Hno. split; [reflexivity|exact Heq].
Qed.

(** The loop stops at an object whose signing matches. *)
Lemma findKeyLoop_stop (target : string) (obj : types.Object) (key : string)
  (rest : list types.Object) (u : string) (w w1 : W) :
  types.Key obj = Some key ->
  run h (GetPresignedURL c key fifteenMinutes) w = (Returned (u, None), w1) ->
  normalizeURL u = normalizeURL target ->
  run h (findKeyLoop c (normalizeURL target) (obj :: rest)) w
  = (Returned (key, None), w1).
Proof.
  intros Hkey Hsign Heq. cbn [findKeyLoop]. rewrite Hkey. cbn [deref bind].
  rewrite run_bind, Hsign. now rewrite Heq, String.eqb_refl.
Qed.

(** The loop panics at an object with a nil key, before any call for it. *)
Lemma findKeyLoop_nil (target : string) (obj : types.Object) (rest : list types.Object)
  (w : W) :
  types.Key obj = None ->
  (exists msg, run h (findKeyLoop c target (obj :: rest)) w = (Panicked msg, w)) /\
  trace h (findKeyLoop c target (obj :: rest)) w = [].
Proof.
  intros Hkey. cbn [findKeyLoop]. rewrite Hkey. split; [eexists|]; reflexivity.
Qed.

(** Passing over a whole run of objects. *)
Lemma findKeyLoop_skip (target : string) (before : list types.Object) :
  forall (rest : list types.Object) (skipped : list (string * option error)) (w w2 : W),
  run h (signEach c before) w = (Returned skipped, w2) ->
  Forall (fun sg => ~ matches target sg) skipped ->
  run h (findKeyLoop c (normalizeURL target) (before ++ rest)) w
  = run h (findKeyLoop c (normalizeURL target) rest) w2.
Proof.
  induction before as [|obj before IH]; intros rest skipped w w2 Hrun Hno.
  - cbn [signEach run] in Hrun. injection Hrun as <- <-. reflexivity.
  - apply signEach_cons in Hrun.
    destruct Hrun as (key & sg & w1 & more & Hkey & Hsg & Hmore & ->).
    apply Forall_cons in Hno. destruct Hno as [Hsg_no Hmore_no].
    rewrite <- app_comm_cons, (findKeyLoop_pass target obj key _ sg w w1 Hkey Hsg Hsg_no).
    now apply (IH rest more).
Qed.

(** What the loop returns, when it returns, comes with no error or with
    the not-found error. *)
Lemma findKeyLoop_errors (target : string) (contents : list types.Object) :
  forall w key e w',
    run h (findKeyLoop c target contents) w = (Returned (key, e), w') ->
    e = None \/ e = Some notFoundError.
Proof.
  induction contents as [|obj rest IH]; intros w key e w'; cbn [findKeyLoop].
  - cbn [run]. intros [= _ <- _]. now right.
  - destruct (types.Key obj) as [k|]; cbn [deref bind].
    + rewrite run_bind.
      destruct (GetPresignedURL_returns h c k fifteenMinutes w)
        as (u & e0 & w1 & -> & _).
      destruct e0 as [e0|]; [apply IH|].
      destruct (String.eqb _ _); [|apply IH].
      cbn [run]. intros [= _ <- _]. now left.
    + cbn [run]. intros Hrun. discriminate Hrun.
Qed.

(** On a listing whose objects all name a key the loop returns. *)
Lemma findKeyLoop_returns (target : string) (contents : list types.Object) :
  Forall keyed contents ->
  forall w, exists key e w',
    run h (findKeyLoop c target contents) w = (Returned (key, e), w').
Proof.
  induction 1 as [|obj rest [k Hkey] _ IH]; intros w; cbn [findKeyLoop].
  - eexists _, _, _. reflexivity.
  - rewrite Hkey. cbn [deref bind]. rewrite run_bind.
    destruct (GetPresignedURL_returns h c k fifteenMinutes w)
      as (u & e & w1 & -> & _).
    destruct e as [e|]; [apply IH|].
    destruct (String.eqb _ _); [|apply IH].
    eexists _, _, _. reflexivity.
Qed.

(** Some object is the first to match, or none does, or the loop comes
    to an object with a nil key before any match. *)
Lemma findKeyLoop_cases (target : string) (contents : list types.Object) :
  forall w,
  (exists before obj key after skipped w2 u w3,
     contents = (before ++ obj :: after)%list /\
     run h (signEach c before) w = (Returned skipped, w2) /\
     Forall (fun sg => ~ matches target sg) skipped /\
     types.Key obj = Some key /\
     run h (GetPresignedURL c key fifteenMinutes) w2 = (Returned (u, None), w3) /\
     normalizeURL u = normalizeURL target) \/
  (exists skipped w2,
     run h (signEach c contents) w = (Returned skipped, w2) /\
     Forall (fun sg => ~ matches target sg) skipped) \/
  (exists before obj after skipped w2,
     contents = (before ++ obj :: after)%list /\
     run h (signEach c before) w = (Returned skipped, w2) /\
     Forall (fun sg => ~ matches target sg) skipped /\
     types.Key obj = None).
Proof.
  induction contents as [|obj rest IH]; intros w.
  - right. left. exists [], w. split; [reflexivity|constructor].
  - destruct (types.Key obj) as [key|] eqn:Hkey.
    2:{ right. right. exists [], obj, rest, [], w.
        split; [reflexivity|]. split; [reflexivity|]. split; [constructor|exact Hkey]. }
    destruct (GetPresignedURL_returns h c key fifteenMinutes w)
      as (u & e & w1 & Hsg & _).
    assert (Hdec : matches target (u, e) \/ ~ matches target (u, e)).
    { unfold matches. simpl. destruct e as [e|].
      - right. intros [Hcontra _]. discriminate.
      - destruct (String.eqb_spec (normalizeURL u) (normalizeURL target)); [left|right];
          tauto. }
    destruct Hdec as [[He Hu]|Hno].
    + simpl in He, Hu. subst e. left.
      exists [], obj, key, rest, [], w, u, w1.
      split; [reflexivity|]. split; [reflexivity|]. split; [constructor|]. auto.
    + destruct (IH w1) as
        [(before & o & k & after & skipped & w2 & u' & w3 & -> & Hskip & Hno' & Hk & Ho & Hu')
        |[(skipped & w2 & Hskip & Hno')
         |(before & o & after & skipped & w2 & -> & Hskip & Hno' & Hnil)]].
      * left. exists (obj :: before), o, k, after, ((u, e) :: skipped), w2, u', w3.
        split; [reflexivity|].
        split; [exact (signEach_step obj key before (u, e) skipped w w1 w2 Hkey Hsg Hskip)|].
        split; [now constructor|]. auto.
      * right. left. exists ((u, e) :: skipped), w2.
        split; [exact (signEach_step obj key rest (u, e) skipped w w1 w2 Hkey Hsg Hskip)|].
        now constructor.
      * right. right. exists (obj :: before), o, after, ((u, e) :: skipped), w2.
        split; [reflexivity|].
        split; [exact (signEach_step obj key before (u, e) skipped w w1 w2 Hkey Hsg Hskip)|].
        split; [now constructor|exact Hnil].
Qed.

Lemma run_FindKeyByPresignedURL_listed (presignedURL prefix : string)
  (objects : ListObjectsOutput.t) (w w1 : W) :
  h _ (ListObjects (client c)
         {| ListObjectsInput.Bucket := bucket c; ListObjectsInput.Prefix := prefix |}) w
    = (inr objects, w1) ->
  run h (FindKeyByPresignedURL c presignedURL prefix) w
  = run h (findKeyLoop c (normalizeURL presignedURL)
             (ListObjectsOutput.Contents objects)) w1.
Proof.
  intros Hlist. unfold FindKeyByPresignedURL. now rewrite run_bind, run_perform, Hlist.
Qed.

End FindKey.

(** C3. [FindKeyByPresignedURL] returns the key of the first listed
    object whose freshly signed URL, normalized, equals the normalized
    target: the objects before it were signed in turn and none matched.
    It fails with the not-found error when every listed object was
    signed and none matches, in particular on an empty listing.  On a
    listing whose objects all name a key one of the two applies; in
    general the only other case is that the loop comes, before any
    match, to a listed object with a nil key, and panics there.  When the
    listing call fails it returns that error, wrapped, which is never the
    not-found error. *)
Theorem FindKeyByPresignedURL_first_match (W : Type) (h : Handler W) (w : W)
  (c : Client) (presignedURL prefix : string) :
  let listCall := ListObjects (client c)
    {| ListObjectsInput.Bucket := bucket c; ListObjectsInput.Prefix := prefix |} in
  let found := run h (FindKeyByPresignedURL c presignedURL prefix) w in
  match h _ listCall w with
  | (inl e, w1) =>
      found = (Returned ("", Some (fmt_Errorf_w "failed to list objects: %w" e)), w1) /\
      fmt_Errorf_w "failed to list objects: %w" e <> notFoundError
  | (inr objects, w1) =>
      let contents := ListObjectsOutput.Contents objects in
      let firstMatch :=
        exists before obj key after skipped w2 u w3,
          contents = (before ++ obj :: after)%list /\
          run h (signEach c before) w1 = (Returned skipped, w2) /\
          Forall (fun sg => ~ matches presignedURL sg) skipped /\
          types.Key obj = Some key /\
          run h (GetPresignedURL c key fifteenMinutes) w2 = (Returned (u, None), w3) /\
          normalizeURL u = normalizeURL presignedURL in
      let noMatch :=
        exists skipped w2,
          run h (signEach c contents) w1 = (Returned skipped, w2) /\
          Forall (fun sg => ~ matches presignedURL sg) skipped in
      let nilKey :=
        exists before obj after skipped w2 msg,
          contents = (before ++ obj :: after)%list /\
          run h (signEach c before) w1 = (Returned skipped, w2) /\
          Forall (fun sg => ~ matches presignedURL sg) skipped /\
          types.Key obj = None /\
          found = (Panicked msg, w2) in
      (forall before obj key after skipped w2 u w3,
         contents = (before ++ obj :: after)%list ->
         run h (signEach c before) w1 = (Returned skipped, w2) ->
         Forall (fun sg => ~ matches presignedURL sg) skipped ->
         types.Key obj = Some key ->
         run h (GetPresignedURL c key fifteenMinutes) w2 = (Returned (u, None), w3) ->
         normalizeURL u = normalizeURL presignedURL ->
         found = (Returned (key, None), w3)) /\
      (forall skipped w2,
         run h (signEach c contents) w1 = (Returned skipped, w2) ->
         Forall (fun sg => ~ matches presignedURL sg) skipped ->
         found = (Returned ("", Some notFoundError), w2)) /\
      (contents = [] -> found = (Returned ("", Some notFoundError), w1)) /\
      (firstMatch \/ noMatch \/ nilKey) /\
      (Forall keyed contents -> firstMatch \/ noMatch)
  end.
Proof.
  intros listCall found.
  destruct (h _ listCall w) as [[e|objects] w1] eqn:Hlist.
  - split; [|discriminate].
    unfold found, FindKeyByPresignedURL. fold listCall.
    now rewrite run_bind, run_perform, Hlist.
  - intros contents firstMatch noMatch nilKey.
    assert (Hrun : found = run h (findKeyLoop c (normalizeURL presignedURL) contents) w1)
      by exact (run_FindKeyByPresignedURL_listed h c presignedURL prefix objects w w1 Hlist).
    assert (Hcases : firstMatch \/ noMatch \/ nilKey).
    { destruct (findKeyLoop_cases h c presignedURL contents w1) as
        [Hfirst|[Hnone|(before & obj & after & skipped & w2 & Hc & Hskip & Hno & Hnil)]].
      - now left.
      - right. now left.
      - right. right.
        destruct (findKeyLoop_nil h c (normalizeURL presignedURL) obj after w2 Hnil)
          as [[msg Hpanic] _].
        exists before, obj, after, skipped, w2, msg.
        split; [exact Hc|]. split; [exact Hskip|]. split; [exact Hno|].
        split; [exact Hnil|].
        rewrite Hrun, Hc.
        now rewrite (findKeyLoop_skip h c presignedURL before _ skipped w1 w2 Hskip Hno). }
    split; [|split; [|split; [|split]]].
    + intros before obj key after skipped w2 u w3 Hc Hskip Hno Hkey Hsign Hu.
      rewrite Hrun, Hc.
      rewrite (findKeyLoop_skip h c presignedURL before _ skipped w1 w2 Hskip Hno).
      now apply (findKeyLoop_stop h c presignedURL obj key after u).
    + intros skipped w2 Hskip Hno.
      rewrite Hrun, <- (app_nil_r contents).
      now rewrite (findKeyLoop_skip h c presignedURL _ [] skipped w1 w2 Hskip Hno).
    + intros Hc. rewrite Hrun, Hc. reflexivity.
    + exact Hcases.
    + intros Hkeyed.
      destruct Hcases as [Hfirst|[Hnone|Hnil]]; [now left|now right|].
      destruct Hnil as (before & obj & after & skipped & w2 & msg & Hc & _ & _ & Hnil & _).
      exfalso. rewrite Hc in Hkeyed. apply Forall_app in Hkeyed.
      destruct Hkeyed as [_ Hkeyed]. apply Forall_cons in Hkeyed.
      destruct Hkeyed as [[key Hkey] _]. congruence.
Qed.

(** C10. When signing a listed object fails, [FindKeyByPresignedURL]
    goes on with the objects after it as if it had not been listed; so
    when the objects after it are signed and none matches, the result is
    the not-found error and not the signing error.  With a successful
    listing a result that is returned carries no error or the not-found
    error, never a signing error; and a result is returned when the
    objects after the failed one all name a key. *)
Theorem FindKeyByPresignedURL_skips_failed_signing (W : Type) (h : Handler W)
  (w w1 w2 w3 : W) (c : Client) (presignedURL prefix : string)
  (objects : ListObjectsOutput.t) (before after : list types.Object)
  (obj : types.Object) (key : string) (skipped : list (string * option error))
  (e : error) :
  h _ (ListObjects (client c)
         {| ListObjectsInput.Bucket := bucket c; ListObjectsInput.Prefix := prefix |}) w
    = (inr objects, w1) ->
  ListObjectsOutput.Contents objects = (before ++ obj :: after)%list ->
  run h (signEach c before) w1 = (Returned skipped, w2) ->
  Forall (fun sg => ~ matches presignedURL sg) skipped ->
  types.Key obj = Some key ->
  run h (GetPresignedURL c key fifteenMinutes) w2 = (Returned ("", Some e), w3) ->
  run h (FindKeyByPresignedURL c presignedURL prefix) w
    = run h (findKeyLoop c (normalizeURL presignedURL) after) w3 /\
  (forall rest w4,
     run h (signEach c after) w3 = (Returned rest, w4) ->
     Forall (fun sg => ~ matches presignedURL sg) rest ->
     run h (FindKeyByPresignedURL c presignedURL prefix) w
       = (Returned ("", Some notFoundError), w4)) /\
  e <> notFoundError /\
  (forall k err w',
     run h (FindKeyByPresignedURL c presignedURL prefix) w = (Returned (k, err), w') ->
     err = None \/ err = Some notFoundError) /\
  (Forall keyed after ->
   exists k err w',
     run h (FindKeyByPresignedURL c presignedURL prefix) w = (Returned (k, err), w')).
Proof.
  intros Hlist Hcontents Hskip Hno Hkey Hsign.
  assert (Hrun : run h (FindKeyByPresignedURL c presignedURL prefix) w
                 = run h (findKeyLoop c (normalizeURL presignedURL)
                            (ListObjectsOutput.Contents objects)) w1)
    by exact (run_FindKeyByPresignedURL_listed h c presignedURL prefix objects w w1 Hlist).
  assert (Hnext : run h (FindKeyByPresignedURL c presignedURL prefix) w
                  = run h (findKeyLoop c (normalizeURL presignedURL) after) w3).
  { rewrite Hrun, Hcontents.
    rewrite (findKeyLoop_skip h c presignedURL before _ skipped w1 w2 Hskip Hno).
    apply (findKeyLoop_pass h c presignedURL obj key after ("", Some e) w2 w3 Hkey Hsign).
    intros [Hcontra _]. discriminate. }
  split; [exact Hnext|]. split; [|split; [|split]].
  - intros rest w4 Hrest Hno'. rewrite Hnext, <- (app_nil_r after).
    now rewrite (findKeyLoop_skip h c presignedURL after [] rest w3 w4 Hrest Hno').
  - rewrite run_GetPresignedURL in Hsign.
    destruct (h _ _ w2) as [[e0|request] w']; [|discriminate].
    injection Hsign as <- _. discriminate.
  - intros k err w'. rewrite Hnext. apply findKeyLoop_errors.
  - intros Hkeyed. rewrite Hnext. now apply findKeyLoop_returns.
Qed.

Lemma FindKeyByPresignedURL_skips_failed_signing_witness :
  run (Script.handler (Script.failing ["B"]))
      (FindKeyByPresignedURL Script.demoClient (Script.pathURL "old" "B") "p") 0
  = (Returned ("", Some notFoundError), 4).
Proof.
  destruct (FindKeyByPresignedURL_skips_failed_signing nat
              (Script.handler (Script.failing ["B"])) 0 1 2 3 Script.demoClient
              (Script.pathURL "old" "B") "p" Script.threeObjects
              [types.Build_Object (Some "A")] [types.Build_Object (Some "C")]
              (types.Build_Object (Some "B")) "B"
              [(Script.pathURL "s1" "A", None)]
              (fmt_Errorf_w "failed to generate presigned URL: %w"
                 (sdk_Error "cannot sign B"))
              eq_refl eq_refl eq_refl) as (_ & Hnotfound & _).
  - repeat constructor. intros [_ Hurl]. vm_compute in Hurl. discriminate Hurl.
  - reflexivity.
  - vm_compute. reflexivity.
  - apply (Hnotfound [(Script.pathURL "s1" "C", None)] 4 eq_refl).
    repeat constructor. intros [_ Hurl]. vm_compute in Hurl. discriminate Hurl.
Defined.

(** ** The remaining paths *)

(** X11. A failed listing is returned wrapped, with a nil slice, and
    nothing is signed. *)
Lemma GetObjects_listing_failure (W : Type) (h : Handler W) (w w1 : W) (c : Client)
  (s : Schedule) (prefix : string) (e : error) :
  h _ (ListObjects (client c)
         {| ListObjectsInput.Bucket := bucket c; ListObjectsInput.Prefix := prefix |}) w
    = (inl e, w1) ->
  run h (GetObjects c s prefix) w
    = (Returned (None, Some (fmt_Errorf_w "failed to list objects: %w" e)), w1) /\
  Forall (fun ev => isSign ev = false) (trace h (GetObjects c s prefix) w).
Proof.
  intros Hlist. unfold GetObjects.
  rewrite run_bind, trace_bind, run_perform, trace_perform, Hlist. cbn [fst snd].
  split; [reflexivity|]. repeat constructor.
Qed.

(** X19. A failed put is returned wrapped, with an empty URL, and
    nothing is signed. *)
Lemma UploadFile_put_failure (W : Type) (h : Handler W) (w w1 : W) (c : Client)
  (objectID key : string) (body : io_Reader) (contentType : string) (e : error) :
  h _ (PutObject (client c)
         {| PutObjectInput.Bucket := bucket c;
            PutObjectInput.Key := objectID ++ "/" ++ key;
            PutObjectInput.Body := body;
            PutObjectInput.ContentType := contentType |}) w = (Some e, w1) ->
  run h (UploadFile c objectID key body contentType) w
    = (Returned ("", Some (fmt_Errorf_w "failed to upload file to S3: %w" e)), w1) /\
  Forall (fun ev => isSign ev = false)
    (trace h (UploadFile c objectID key body contentType) w).
Proof.
  intros Hput. unfold UploadFile.
  rewrite run_bind, trace_bind, run_perform, trace_perform, Hput. cbn [fst snd].
  split; [reflexivity|]. repeat constructor.
Qed.

Lemma DeleteFile_spec (W : Type) (h : Handler W) (w : W) (c : Client) (key : string) :
  run h (DeleteFile c key) w =
  match h _ (DeleteObject (client c)
               {| DeleteObjectInput.Bucket := bucket c;
                  DeleteObjectInput.Key := key |}) w with
  | (Some e, w') => (Returned (Some (fmt_Errorf_w "failed to delete file from S3: %w" e)), w')
  | (None, w') => (Returned None, w')
  end.
Proof.
  unfold DeleteFile. rewrite run_bind, run_perform.
  destruct (h _ _ w) as [[e|] w']; reflexivity.
Qed.

(** ** Concrete runs against the scripted service *)

Example normalizeURL_fragment_first :
  normalizeURL "https://h/k#frag?X=1" = "https://h/k".
Proof. reflexivity. Qed.

Example normalizeURL_plain : normalizeURL "https://h/k" = "https://h/k".
Proof. reflexivity. Qed.

Example normalizeURL_leading_query : normalizeURL "?a" = "".
Proof. reflexivity. Qed.

Example New_without_secret :
  run (Script.handler Script.healthy)
      (New {| Endpoint := "https://h"; AccessKeyID := "id"; SecretAccessKey := "";
              BucketName := "b"; Region := "r" |}) 0
  = (Returned (None, Some credentialsError), 0).
Proof. reflexivity. Qed.

Example New_with_credentials :
  run (Script.handler Script.healthy)
      (New {| Endpoint := "https://h"; AccessKeyID := "id"; SecretAccessKey := "secret";
              BucketName := "b"; Region := "r" |}) 0
  = (Returned (Some Script.demoClient, None), 1).
Proof. reflexivity. Qed.

Example UploadFile_run :
  run (Script.handler Script.healthy)
      (UploadFile Script.demoClient "obj" "f.jpg" [] "image/jpeg") 0
  = (Returned (Script.pathURL "s1" "obj/f.jpg", None), 2).
Proof. vm_compute. reflexivity. Qed.

Example FindKey_run :
  run (Script.handler Script.healthy)
      (FindKeyByPresignedURL Script.demoClient (Script.pathURL "old" "B") "p") 0
  = (Returned ("B", None), 3).
Proof. vm_compute. reflexivity. Qed.

(** The second listed object has no key: the search signs [A], which
    does not match, and panics at the second object, before [C]. *)
Example FindKey_nil_key :
  run (Script.handler Script.keyless)
      (FindKeyByPresignedURL Script.demoClient (Script.pathURL "old" "C") "p") 0
  = (Panicked "invalid memory address or nil pointer dereference", 2).
Proof. vm_compute. reflexivity. Qed.

(** [B] is the last to be received; the output is still [A, B, C]. *)
Example GetObjects_B_last :
  run (Script.handler Script.healthy)
      (GetObjects Script.demoClient {| signing := [0; 2; 1]; sending := [0; 2; 1] |} "p") 0
  = (Returned (Some [Script.pathURL "s1" "A"; Script.pathURL "s1" "B";
                     Script.pathURL "s1" "C"], None), 4).
Proof. vm_compute. reflexivity. Qed.

(** All three signings fail; [C] is received first and its error is the
    one reported. *)
Example GetObjects_all_fail :
  run (Script.handler (Script.failing ["A"; "B"; "C"]))
      (GetObjects Script.demoClient {| signing := [0; 1; 2]; sending := [2; 0; 1] |} "p") 0
  = (Returned (None, Some (fmt_Errorf_w "failed to get presigned URLs: %w"
                 (fmt_Errorf_w "failed to generate presigned URL: %w"
                    (sdk_Error "cannot sign C")))), 7).
Proof. vm_compute. reflexivity. Qed.

(** * Further properties *)

(** ** [normalizeURL] as a function on strings *)

Section NormalForm.

Lemma normalizeURL_from_shift (c : ascii) (u : string) (steps : nat) :
  forall i, normalizeURL_from (String c u) (S i) steps
            = String c (normalizeURL_from u i steps).
Proof.
  induction steps as [|steps IH]; intros i; [reflexivity|].
  cbn [normalizeURL_from String.get]. 
  destruct (String.get i u) as [ch|]; [|reflexivity].
  destruct (isDelim ch); [reflexivity|apply IH].
Qed.

(** The loop, read one byte at a time. *)
Lemma normalizeURL_cons (c : ascii) (u : string) :
  normalizeURL (String c u)
  = if isDelim c then "" else String c (normalizeURL u).
Proof.
  unfold normalizeURL. cbn [String.length normalizeURL_from String.get].
  destruct (isDelim c); [reflexivity|apply normalizeURL_from_shift].
Qed.

Lemma normalizeURL_nil : normalizeURL "" = "".
Proof. reflexivity. Qed.

Lemma normalizeURL_no_delim (u : string) :
  forall i ch, String.get i (normalizeURL u) = Some ch -> isDelim ch = false.
Proof.
  induction u as [|c u IH]; intros i ch.
  - rewrite normalizeURL_nil. destruct i; discriminate.
  - rewrite normalizeURL_cons. destruct (isDelim c) eqn:Hc.
    + destruct i; discriminate.
    + destruct i as [|i]; simpl.
      * intros [= <-]. exact Hc.
      * apply IH.
Qed.

Lemma normalizeURL_split (u : string) :
  exists rest, u = normalizeURL u ++ rest /\
    (rest = "" \/ exists d q, rest = String d q /\ isDelim d = true).
Proof.
  induction u as [|c u (rest & Hu & Hrest)].
  - exists "". split; [reflexivity|now left].
  - rewrite normalizeURL_cons. destruct (isDelim c) eqn:Hc.
    + exists (String c u). split; [reflexivity|]. right. eauto.
    + exists rest. split; [|exact Hrest].
      change (String c u = String c (normalizeURL u ++ rest)). now f_equal.
Qed.

Lemma normalizeURL_append_delim (p q : string) (d : ascii) :
  isDelim d = true -> normalizeURL (p ++ String d q) = normalizeURL p.
Proof.
  intros Hd. induction p as [|c p IH].
  - change ("" ++ String d q) with (String d q).
    rewrite normalizeURL_cons, Hd. reflexivity.
  - change (String c p ++ String d q) with (String c (p ++ String d q)).
    rewrite !normalizeURL_cons, IH. reflexivity.
Qed.

Lemma string_length_append (a b : string) :
  String.length (a ++ b) = String.length a + String.length b.
Proof.
  induction a as [|c a IH]; [reflexivity|].
  change (String c a ++ b) with (String c (a ++ b)).
  cbn [String.length]. now rewrite IH.
Qed.

End NormalForm.

(** X1. [normalizeURL] is idempotent: normalizing a normalized URL
    changes nothing. *)
Theorem normalizeURL_idempotent (u : string) :
  normalizeURL (normalizeURL u) = normalizeURL u.
Proof.
  induction u as [|c u IH]; [reflexivity|].
  rewrite normalizeURL_cons. destruct (isDelim c) eqn:Hc; [reflexivity|].
  now rewrite normalizeURL_cons, Hc, IH.
Qed.

(** X2. [normalizeURL u] is a prefix of [u] that holds neither ['?'] nor
    ['#'], and what it cuts off is empty or starts with one of the two:
    nothing but a query or fragment is ever dropped. *)
Theorem normalizeURL_cuts_at_delimiter (u : string) :
  (forall i ch, String.get i (normalizeURL u) = Some ch ->
                ch <> "?"%char /\ ch <> "#"%char) /\
  (exists rest, u = normalizeURL u ++ rest /\
     (rest = "" \/
      exists d q, rest = String d q /\ (d = "?"%char \/ d = "#"%char))) /\
  String.length (normalizeURL u) <= String.length u.
Proof.
  split; [|split].
  - intros i ch Hget. apply isDelim_false. exact (normalizeURL_no_delim u i ch Hget).
  - destruct (normalizeURL_split u) as (rest & Hu & Hrest).
    exists rest. split; [exact Hu|].
    destruct Hrest as [->|(d & q & -> & Hd)]; [now left|].
    right. exists d, q. split; [reflexivity|]. now apply isDelim_true.
  - destruct (normalizeURL_split u) as (rest & Hu & _).
    rewrite Hu at 2. rewrite string_length_append. lia.
Qed.

(** X3. Whatever follows a ['?'] or a ['#'] is ignored: two URLs that
    agree up to their query or fragment have the same normal form. *)
Theorem normalizeURL_ignores_query (p q1 q2 : string) (d1 d2 : ascii) :
  (d1 = "?"%char \/ d1 = "#"%char) ->
  (d2 = "?"%char \/ d2 = "#"%char) ->
  normalizeURL (p ++ String d1 q1) = normalizeURL p /\
  normalizeURL (p ++ String d1 q1) = normalizeURL (p ++ String d2 q2).
Proof.
  intros H1 H2. apply isDelim_true in H1, H2.
  rewrite !normalizeURL_append_delim by assumption. split; reflexivity.
Qed.

Lemma normalizeURL_ignores_query_witness :
  normalizeURL ("https://h/b/k" ++ String "?" "X-Amz-Signature=1")
  = normalizeURL ("https://h/b/k" ++ String "#" "top").
Proof.
  exact (proj2 (normalizeURL_ignores_query "https://h/b/k" "X-Amz-Signature=1" "top"
                  "?" "#" (or_introl eq_refl) (or_intror eq_refl))).
Defined.

(** ** What the methods call *)

Section Frames.
Context {W : Type} (h : Handler W) (P : Event -> Prop).

Lemma Forall_trace_bind {A B : Type} (m : Prog A) (f : A -> Prog B) (w : W) :
  Forall P (trace h m w) ->
  (forall a w', Forall P (trace h (f a) w')) ->
  Forall P (trace h (bind m f) w).
Proof.
  intros Hm Hf. rewrite trace_bind. apply Forall_app. split; [exact Hm|].
  destruct (run h m w) as [[a|msg] w']; [apply Hf|constructor].
Qed.

Lemma Forall_trace_perform {X : Type} (c : call X) (w : W) :
  (forall x, P (Ev c x)) -> Forall P (trace h (perform c) w).
Proof. intros Hc. rewrite trace_perform. constructor; [apply Hc|constructor]. Qed.

Context (c : Client).

Lemma frame_GetPresignedURL (key : string) (d : time.Duration) (w : W) :
  (forall x, P (Ev (callSign c key d) x)) ->
  Forall P (trace h (GetPresignedURL c key d) w).
Proof.
  intros Hsign. rewrite trace_GetPresignedURL. constructor; [apply Hsign|constructor].
Qed.

Lemma frame_UploadFile (objectID key : string) (body : io_Reader)
  (contentType : string) (w : W) :
  (forall x, P (Ev (callPut c (objectID ++ "/" ++ key) body contentType) x)) ->
  (forall x, P (Ev (callSign c (objectID ++ "/" ++ key) fifteenMinutes) x)) ->
  Forall P (trace h (UploadFile c objectID key body contentType) w).
Proof.
  intros Hput Hsign. unfold UploadFile.
  apply Forall_trace_bind; [now apply Forall_trace_perform|].
  intros [e|] w'; [constructor|].
  apply Forall_trace_bind; [now apply frame_GetPresignedURL|].
  intros [u [e|]] w''; constructor.
Qed.

Lemma frame_DeleteFile (key : string) (w : W) :
  (forall x, P (Ev (callDelete c key) x)) -> Forall P (trace h (DeleteFile c key) w).
Proof.
  intros Hdel. unfold DeleteFile.
  apply Forall_trace_bind; [now apply Forall_trace_perform|].
  intros [e|] w'; constructor.
Qed.

Lemma frame_FileExists (key : string) (w : W) :
  (forall x, P (Ev (callHead c key) x)) -> Forall P (trace h (FileExists c key) w).
Proof.
  intros Hhead. unfold FileExists.
  apply Forall_trace_bind; [now apply Forall_trace_perform|].
  intros [e|] w'; constructor.
Qed.

Lemma frame_findKeyLoop (target : string) (contents : list types.Object) :
  (forall key x, P (Ev (callSign c key fifteenMinutes) x)) ->
  forall w, Forall P (trace h (findKeyLoop c target contents) w).
Proof.
  intros Hsign. induction contents as [|obj rest IH]; intros w; cbn [findKeyLoop].
  - constructor.
  - apply Forall_trace_bind; [rewrite trace_deref; constructor|]. intros key w0.
    apply Forall_trace_bind; [now apply frame_GetPresignedURL|].
    intros [u [e|]] w'; [apply IH|].
    destruct (String.eqb _ _); [|apply IH].
    apply Forall_trace_bind; [rewrite trace_deref; constructor|].
    intros found w''. constructor.
Qed.

Lemma frame_FindKeyByPresignedURL (presignedURL prefix : string) (w : W) :
  (forall x, P (Ev (callList c prefix) x)) ->
  (forall key x, P (Ev (callSign c key fifteenMinutes) x)) ->
  Forall P (trace h (FindKeyByPresignedURL c presignedURL prefix) w).
Proof.
  intros Hlist Hsign. unfold FindKeyByPresignedURL.
  apply Forall_trace_bind; [now apply Forall_trace_perform|].
  intros [e|objects] w'; [constructor|now apply frame_findKeyLoop].
Qed.

Lemma frame_runWorkers (contents : list types.Object) (order : list nat) :
  (forall key x, P (Ev (callSign c key fifteenMinutes) x)) ->
  forall held w, Forall P (trace h (runWorkers c contents order held) w).
Proof.
  intros Hsign. induction order as [|idx rest IH]; intros held w; cbn [runWorkers].
  - constructor.
  - destruct (contents !! idx) as [obj|]; [|apply IH].
    apply Forall_trace_bind; [|intros r w'; apply IH].
    rewrite trace_worker.
    destruct (types.Key obj); [now apply frame_GetPresignedURL|constructor].
Qed.

Lemma frame_collect (arr : list presignedURLResult) :
  (forall format args x, P (Ev (log_Printf format args) x)) ->
  forall st w, Forall P (trace h (collect arr st) w).
Proof.
  intros Hlog. induction arr as [|r arr IH]; intros st w; cbn [collect]; [constructor|].
  destruct (err r) as [e|].
  - apply Forall_trace_bind; [now apply Forall_trace_perform|]. intros _ w'. apply IH.
  - destruct (decide _); [apply IH|constructor].
Qed.

Lemma frame_GetObjects (s : Schedule) (prefix : string) (w : W) :
  (forall x, P (Ev (callList c prefix) x)) ->
  (forall key x, P (Ev (callSign c key fifteenMinutes) x)) ->
  (forall format args x, P (Ev (log_Printf format args) x)) ->
  Forall P (trace h (GetObjects c s prefix) w).
Proof.
  intros Hlist Hsign Hlog. unfold GetObjects.
  apply Forall_trace_bind; [now apply Forall_trace_perform|].
  intros [e|objects] w'; [constructor|].
  destruct (_ =? 0)%nat; [constructor|].
  apply Forall_trace_bind; [now apply frame_runWorkers|]. intros held w2.
  apply Forall_trace_bind; [now apply frame_collect|]. intros st w3.
  destruct (_ =? _)%nat; [constructor|].
  destruct (0 <? _)%nat; [|constructor].
  apply Forall_trace_bind; [now apply Forall_trace_perform|]. intros _ w4. constructor.
Qed.

End Frames.

(** X4. Every call a method of a client makes goes through that
    client's SDK handle and names that client's bucket: no method ever
    reaches another bucket. *)
Theorem client_stays_in_its_bucket (W : Type) (h : Handler W) (w : W) (c : Client) :
  (forall objectID key body contentType,
     Forall (confined c) (trace h (UploadFile c objectID key body contentType) w)) /\
  (forall key, Forall (confined c) (trace h (DeleteFile c key) w)) /\
  (forall key expiration,
     Forall (confined c) (trace h (GetPresignedURL c key expiration) w)) /\
  (forall key, Forall (confined c) (trace h (FileExists c key) w)) /\
  (forall presignedURL prefix,
     Forall (confined c) (trace h (FindKeyByPresignedURL c presignedURL prefix) w)) /\
  (forall s prefix, Forall (confined c) (trace h (GetObjects c s prefix) w)).
Proof.
  assert (Hin : forall X (cl : call X) x,
            (forall k, handleOf (Ev cl x) = Some k -> k = client c) ->
            (forall b, bucketOf (Ev cl x) = Some b -> b = bucket c) ->
            confined c (Ev cl x)) by (intros; split; assumption).
  repeat split; intros;
    first [apply frame_UploadFile | apply frame_DeleteFile | apply frame_GetPresignedURL
          | apply frame_FileExists | apply frame_FindKeyByPresignedURL
          | apply frame_GetObjects];
    intros; apply Hin; simpl; intros ? Heq; now inversion Heq.
Qed.

(** X5. Reading never writes: [FileExists], [GetPresignedURL],
    [FindKeyByPresignedURL] and [GetObjects] make no put and no delete
    call.  [UploadFile] makes no delete call, so an object it has put
    stays even when the signing after it fails; [DeleteFile] makes no
    put call. *)
Theorem reads_never_write (W : Type) (h : Handler W) (w : W) (c : Client) :
  (forall key, Forall (fun e => isWrite e = false) (trace h (FileExists c key) w)) /\
  (forall key expiration,
     Forall (fun e => isWrite e = false) (trace h (GetPresignedURL c key expiration) w)) /\
  (forall presignedURL prefix,
     Forall (fun e => isWrite e = false)
       (trace h (FindKeyByPresignedURL c presignedURL prefix) w)) /\
  (forall s prefix,
     Forall (fun e => isWrite e = false) (trace h (GetObjects c s prefix) w)) /\
  (forall objectID key body contentType,
     Forall (fun e => isDelete e = false)
       (trace h (UploadFile c objectID key body contentType) w)) /\
  (forall key, Forall (fun e => isPut e = false) (trace h (DeleteFile c key) w)).
Proof.
  repeat split; intros;
    first [apply frame_UploadFile | apply frame_DeleteFile | apply frame_GetPresignedURL
          | apply frame_FileExists | apply frame_FindKeyByPresignedURL
          | apply frame_GetObjects];
    intros; reflexivity.
Qed.

(** ** Upload, existence check and delete together *)

(** X6. When the put succeeds and the signing after it fails,
    [UploadFile] returns an empty URL and the signing error wrapped
    twice (once by [GetPresignedURL], once by [UploadFile]); the put has
    been made and nothing undoes it: the run is the put and the failed
    signing call, nothing else. *)
Theorem UploadFile_sign_failure (W : Type) (h : Handler W) (w w1 w2 : W) (c : Client)
  (objectID key : string) (body : io_Reader) (contentType : string) (e : error) :
  h _ (callPut c (objectID ++ "/" ++ key) body contentType) w = (None, w1) ->
  h _ (callSign c (objectID ++ "/" ++ key) fifteenMinutes) w1 = (inl e, w2) ->
  run h (UploadFile c objectID key body contentType) w
    = (Returned ("", Some (fmt_Errorf_w "failed to generate presigned URL: %w"
                             (fmt_Errorf_w "failed to generate presigned URL: %w" e))),
       w2) /\
  trace h (UploadFile c objectID key body contentType) w
    = [Ev (callPut c (objectID ++ "/" ++ key) body contentType) None;
       Ev (callSign c (objectID ++ "/" ++ key) fifteenMinutes) (inl e)].
Proof.
  intros Hput Hsign. unfold UploadFile, GetPresignedURL, callPut, callSign in *.
  simpl. rewrite Hput. simpl. rewrite Hsign. split; reflexivity.
Qed.

Lemma UploadFile_sign_failure_witness :
  run (Script.handler (Script.failing ["obj/f.jpg"]))
      (UploadFile Script.demoClient "obj" "f.jpg" [] "image/jpeg") 0
  = (Returned ("", Some (fmt_Errorf_w "failed to generate presigned URL: %w"
                           (fmt_Errorf_w "failed to generate presigned URL: %w"
                              (sdk_Error "cannot sign obj/f.jpg")))), 2).
Proof.
  exact (proj1 (UploadFile_sign_failure nat (Script.handler (Script.failing ["obj/f.jpg"]))
                  0 1 2 Script.demoClient "obj" "f.jpg" [] "image/jpeg"
                  (sdk_Error "cannot sign obj/f.jpg") eq_refl eq_refl)).
Defined.

Lemma UploadFile_put_failure_witness :
  run (Script.handler Script.putRefused)
      (UploadFile Script.demoClient "obj" "f.jpg" [] "image/jpeg") 0
  = (Returned ("", Some (fmt_Errorf_w "failed to upload file to S3: %w"
                           (sdk_Error "AccessDenied"))), 1).
Proof.
  exact (proj1 (UploadFile_put_failure nat (Script.handler Script.putRefused) 0 1
                  Script.demoClient "obj" "f.jpg" [] "image/jpeg"
                  (sdk_Error "AccessDenied") eq_refl)).
Defined.

Section ZeroValues.
Context {W : Type} (h : Handler W) (c : Client).

Lemma UploadFile_returns (objectID key : string) (body : io_Reader)
  (contentType : string) (w : W) :
  exists u e w', run h (UploadFile c objectID key body contentType) w
                 = (Returned (u, e), w') /\ (is_Some e -> u = "").
Proof.
  unfold UploadFile. rewrite run_bind, run_perform.
  destruct (h _ _ w) as [[e|] w1]; cbn [fst snd].
  - eexists _, _, _. split; reflexivity.
  - rewrite run_bind.
    destruct (GetPresignedURL_returns h c (objectID ++ "/" ++ key) fifteenMinutes w1)
      as (u & e & w2 & -> & _).
    destruct e as [e|]; eexists _, _, _; (split; [reflexivity|]).
    + reflexivity.
    + intros [? ?]. discriminate.
Qed.

(** What the loop returns with an error is the empty string. *)
Lemma findKeyLoop_zero (target : string) (contents : list types.Object) :
  forall w key e w',
    run h (findKeyLoop c target contents) w = (Returned (key, e), w') ->
    is_Some e -> key = "".
Proof.
  induction contents as [|obj rest IH]; intros w key e w'; cbn [findKeyLoop].
  - cbn [run]. intros [= <- _ _] _. reflexivity.
  - destruct (types.Key obj) as [k|]; cbn [deref bind].
    + rewrite run_bind.
      destruct (GetPresignedURL_returns h c k fifteenMinutes w)
        as (u & e0 & w1 & -> & _).
      destruct e0 as [e0|]; [apply IH|].
      destruct (String.eqb _ _); [|apply IH].
      cbn [run]. intros [= _ <- _] [? ?]. discriminate.
    + cbn [run]. intros Hrun. discriminate Hrun.
Qed.

End ZeroValues.

(** X7. An error always comes with the empty string.  [UploadFile] and
    [GetPresignedURL] return on every run, and never a URL together with
    an error.  A result [FindKeyByPresignedURL] returns is never a key
    together with an error; it returns one when the listing call fails
    and when every listed object names a key. *)
Theorem error_comes_with_empty_string (W : Type) (h : Handler W) (w : W) (c : Client) :
  (forall objectID key body contentType,
     exists u e w', run h (UploadFile c objectID key body contentType) w
                    = (Returned (u, e), w') /\ (is_Some e -> u = "")) /\
  (forall key expiration,
     exists u e w', run h (GetPresignedURL c key expiration) w = (Returned (u, e), w') /\
                    (is_Some e -> u = "")) /\
  (forall presignedURL prefix key e w',
     run h (FindKeyByPresignedURL c presignedURL prefix) w = (Returned (key, e), w') ->
     is_Some e -> key = "") /\
  (forall presignedURL prefix,
     match h _ (callList c prefix) w with
     | (inl _, _) => True
     | (inr objects, _) => Forall keyed (ListObjectsOutput.Contents objects)
     end ->
     exists key e w',
       run h (FindKeyByPresignedURL c presignedURL prefix) w = (Returned (key, e), w')).
Proof.
  split; [|split; [|split]].
  - intros objectID key body contentType.
    apply UploadFile_returns.
  - intros key expiration. apply GetPresignedURL_returns.
  - intros presignedURL prefix key e w'. unfold FindKeyByPresignedURL.
    rewrite run_bind, run_perform.
    destruct (h _ _ w) as [[e0|objects] w1]; cbn [fst snd].
    + cbn [run]. intros [= <- _ _] _. reflexivity.
    + apply findKeyLoop_zero.
  - intros presignedURL prefix. unfold FindKeyByPresignedURL, callList.
    rewrite run_bind, run_perform.
    destruct (h _ _ w) as [[e0|objects] w1]; cbn [fst snd].
    + intros _. eexists _, _, _. reflexivity.
    + intros Hkeyed. now apply findKeyLoop_returns.
Qed.

(** X8. Upload, existence check and delete agree on the object: every
    call made by [UploadFile c objectID key] (its put and its signing
    call), by [FileExists c (objectID ++ "/" ++ key)] and by
    [DeleteFile c (objectID ++ "/" ++ key)] is about the key
    [objectID ++ "/" ++ key] in the client's bucket, and each of the three
    makes at least one call.  [FileExists] and [DeleteFile] take the key
    as it is; only [UploadFile] builds it. *)
Theorem upload_exists_delete_same_object (W : Type) (h : Handler W) (w : W) (c : Client)
  (objectID key : string) (body : io_Reader) (contentType : string) :
  let object := Some (bucket c, objectID ++ "/" ++ key) in
  let upload := trace h (UploadFile c objectID key body contentType) w in
  let exists_ := trace h (FileExists c (objectID ++ "/" ++ key)) w in
  let delete := trace h (DeleteFile c (objectID ++ "/" ++ key)) w in
  (upload <> [] /\ Forall (fun e => objectOf e = object) upload) /\
  (exists_ <> [] /\ Forall (fun e => objectOf e = object) exists_) /\
  (delete <> [] /\ Forall (fun e => objectOf e = object) delete).
Proof.
  intros object upload exists_ delete. repeat split.
  - unfold upload, UploadFile. rewrite trace_bind, trace_perform. discriminate.
  - apply frame_UploadFile; reflexivity.
  - unfold exists_, FileExists. rewrite trace_bind, trace_perform. discriminate.
  - apply frame_FileExists; reflexivity.
  - unfold delete, DeleteFile. rewrite trace_bind, trace_perform. discriminate.
  - apply frame_DeleteFile; reflexivity.
Qed.

(** ** The client [New] builds *)

(** X9. [New] returns a client or an error, never both and never
    neither, after at most one SDK call.  The client it returns gives
    back the configured bucket and endpoint through [Bucket()] and
    [Endpoint()], and its SDK handle uses path-style addressing at the
    configured endpoint; it is only returned for non-empty credentials,
    which were passed to the loader as static credentials with an empty
    session token, together with the configured region. *)
Theorem New_client_reflects_config (W : Type) (h : Handler W) (w : W) (cfg : Config) :
  exists cl e w',
    run h (New cfg) w = (Returned (cl, e), w') /\
    (cl = None <-> is_Some e) /\
    length (trace h (New cfg) w) <= 1 /\
    forall c, cl = Some c ->
      Client_Bucket c = BucketName cfg /\
      Client_Endpoint c = Endpoint cfg /\
      s3.options (client c)
        = {| s3.BaseEndpoint := Some (Endpoint cfg); s3.UsePathStyle := true |} /\
      AccessKeyID cfg <> "" /\ SecretAccessKey cfg <> "" /\
      exists awsCfg,
        s3.config (client c) = awsCfg /\
        trace h (New cfg) w
        = [Ev (LoadDefaultConfig
                 {| awsconfig.WithRegion := Region cfg;
                    awsconfig.WithCredentialsProvider :=
                      credentials.NewStaticCredentialsProvider
                        (AccessKeyID cfg) (SecretAccessKey cfg) "" |})
              (inr awsCfg)].
Proof.
  unfold New.
  destruct (String.eqb_spec (AccessKeyID cfg) "") as [Hid|Hid]; cbn [orb].
  { eexists _, _, _. split; [reflexivity|]. split; [split; eauto|].
    split; [simpl; lia|]. intros c Hc. discriminate. }
  destruct (String.eqb_spec (SecretAccessKey cfg) "") as [Hsecret|Hsecret].
  { eexists _, _, _. split; [reflexivity|]. split; [split; eauto|].
    split; [simpl; lia|]. intros c Hc. discriminate. }
  rewrite run_bind, trace_bind, run_perform, trace_perform.
  destruct (h _ _ w) as [[e|awsCfg] w1]; cbn [fst snd].
  - eexists _, _, _. split; [reflexivity|]. split; [split; eauto|].
    split; [simpl; lia|]. intros c Hc. discriminate.
  - eexists _, _, _. split; [reflexivity|]. split.
    { split; [discriminate|]. intros [? ?]. discriminate. }
    split; [simpl; lia|]. intros c [= <-].
    repeat (split; [first [reflexivity|assumption]|]).
    exists awsCfg. split; reflexivity.
Qed.

(** ** More on the batch listing *)

Section Batch.
Context {W : Type} (h : Handler W) (c : Client).

Lemma verdict_slice_or_error (n : nat) (rs : list presignedURLResult)
  (first : option error) :
  (verdict n rs first).1 = None <-> is_Some (verdict n rs first).2.
Proof.
  unfold verdict. destruct (_ =? n)%nat; cbn [fst snd].
  - split; eauto.
  - destruct (0 <? _)%nat; cbn [fst snd]; (split; [discriminate|]);
      intros [? ?]; discriminate.
Qed.

Lemma signedKeys_app (tr1 tr2 : list Event) :
  signedKeys (tr1 ++ tr2)%list = (signedKeys tr1 ++ signedKeys tr2)%list.
Proof. apply omap_app. Qed.

Lemma signedKeys_unsigned (tr : list Event) :
  Forall (fun e => isSign e = false) tr -> signedKeys tr = [].
Proof.
  induction 1 as [|[X cl x] tr He _ IH]; [reflexivity|].
  unfold signedKeys in *. cbn [omap list_omap]. rewrite IH.
  destruct cl; simpl in *; first [reflexivity|discriminate].
Qed.

Lemma signedKeys_GetPresignedURL (key : string) (d : time.Duration) (w : W) :
  signedKeys (trace h (GetPresignedURL c key d) w) = [key].
Proof. rewrite trace_GetPresignedURL. reflexivity. Qed.

(** The goroutines sign the keys of the objects they were started for,
    in the order they are scheduled. *)
Lemma signedKeys_runWorkers (contents : list types.Object) (order : list nat) :
  Forall keyed contents ->
  forall held w,
  signedKeys (trace h (runWorkers c contents order held) w)
  = omap (fun i => contents !! i ≫= types.Key) order.
Proof.
  intros Hkeyed.
  induction order as [|idx rest IH]; intros held w; cbn [runWorkers]; [reflexivity|].
  cbn [omap list_omap]. destruct (contents !! idx) as [obj|] eqn:Hobj; cbn [mbind option_bind].
  - assert (Hk : keyed obj).
    { rewrite Forall_forall in Hkeyed. apply Hkeyed.
      now apply list_elem_of_lookup_2 in Hobj. }
    destruct Hk as [key Hkey].
    rewrite trace_bind, signedKeys_app, trace_worker, Hkey, signedKeys_GetPresignedURL.
    rewrite (proj1 (run_worker_keyed h c idx obj key w Hkey)).
    now rewrite IH.
  - apply IH.
Qed.

(** A result of [GetObjects] under a schedule in which every goroutine
    signs shows that every listed object named a key. *)
Lemma GetObjects_returned_keyed (s : Schedule) (prefix : string)
  (objects : ListObjectsOutput.t) (w w1 : W) (result : option (list string) * option error)
  (w' : W) :
  let contents := ListObjectsOutput.Contents objects in
  h _ (ListObjects (client c)
         {| ListObjectsInput.Bucket := bucket c; ListObjectsInput.Prefix := prefix |}) w
    = (inr objects, w1) ->
  signing s ≡ₚ seq 0 (length contents) ->
  run h (GetObjects c s prefix) w = (Returned result, w') ->
  Forall keyed contents.
Proof.
  intros contents Hlist Hsign Hrun.
  destruct (keyed_or_nil contents) as [Hkeyed|(i & obj & Hobj & Hnil)]; [exact Hkeyed|].
  exfalso.
  assert (Hi : i ∈ signing s).
  { rewrite Hsign. apply elem_of_seq. apply lookup_lt_Some in Hobj. lia. }
  destruct (runWorkers_panics h c contents (signing s)
              (ex_intro _ i (ex_intro _ obj (conj Hi (conj Hobj Hnil))))
              (replicate (length contents) None) w1) as (msg & w2 & Hpanic).
  unfold GetObjects in Hrun. rewrite run_bind, run_perform, Hlist in Hrun.
  cbn [fst snd] in Hrun. fold contents in Hrun.
  destruct (Nat.eqb_spec (length contents) 0) as [H0|_].
  { apply lookup_lt_Some in Hobj. lia. }
  rewrite run_bind, Hpanic in Hrun. discriminate Hrun.
Qed.

(** What follows the signing calls signs nothing. *)
Lemma unsigned_after_workers (n : nat) (arr : list presignedURLResult) (st : collector)
  (w : W) :
  Forall (fun e => isSign e = false)
    (trace h
       (bind (collect arr st) (fun st =>
          if (errorCount st =? n)%nat then
            Ret (None, Some (Errorf_w "failed to get presigned URLs: %w" (firstError st)))
          else if (0 <? errorCount st)%nat then
            bind (perform (log_Printf
              "[go-s3 GetObjects] WARNING: %d out of %d presigned URLs failed to generate"
              [argInt (errorCount st); argInt n]))
              (fun _ => Ret (Some (filter (fun url => url <> "") (presignedURLs st)),
                             None))
          else Ret (Some (presignedURLs st), None : option error))) w).
Proof.
  apply Forall_trace_bind; [apply trace_collect|]. intros st' w'.
  destruct (_ =? n)%nat; [constructor|].
  destruct (0 <? _)%nat; [|constructor].
  apply Forall_trace_bind; [now apply Forall_trace_perform|]. intros _ w''. constructor.
Qed.

End Batch.

(** X10. On a listing whose objects all name a key, under a schedule
    of it, [GetObjects] returns (the write into the pre-sized slice is
    never out of range) and gives a nil slice exactly when it gives an
    error; a slice it returns is never longer than the listing.  The
    same holds when the listing call fails. *)
Theorem GetObjects_slice_or_error (W : Type) (h : Handler W) (w : W) (c : Client)
  (s : Schedule) (prefix : string) :
  (forall objects w1,
     h _ (callList c prefix) w = (inr objects, w1) ->
     Forall keyed (ListObjectsOutput.Contents objects) /\
     validSchedule (length (ListObjectsOutput.Contents objects)) s) ->
  exists urls e w',
    run h (GetObjects c s prefix) w = (Returned (urls, e), w') /\
    (urls = None <-> is_Some e) /\
    forall l objects w1,
      urls = Some l ->
      h _ (callList c prefix) w = (inr objects, w1) ->
      length l <= length (ListObjectsOutput.Contents objects).
Proof.
  intros Hsched. unfold callList in *.
  destruct (h _ (ListObjects (client c)
                   {| ListObjectsInput.Bucket := bucket c;
                      ListObjectsInput.Prefix := prefix |}) w)
    as [[e|objects] w1] eqn:Hlist.
  - unfold GetObjects. rewrite run_bind, run_perform, Hlist. cbn [fst snd].
    eexists _, _, _. split; [reflexivity|]. split; [split; eauto|].
    intros l objects w1' Hl. discriminate.
  - destruct (Hsched objects w1 eq_refl) as [Hkeyed Hvalid]. clear Hsched.
    destruct (ListObjectsOutput.Contents objects) as [|obj rest] eqn:Hcontents.
    + unfold GetObjects. rewrite run_bind, run_perform, Hlist. cbn [fst snd].
      rewrite Hcontents. eexists _, _, _. split; [reflexivity|]. split.
      * split; [discriminate|]. intros [? ?]. discriminate.
      * intros l objects' w1' [= <-] _. simpl. lia.
    + destruct (run_GetObjects_listed h c s prefix objects w w1 Hlist)
        as (_ & w' & Hrun).
      * rewrite Hcontents. discriminate.
      * now rewrite Hcontents.
      * now rewrite Hcontents.
      * destruct (signed_spec h c (ListObjectsOutput.Contents objects) (signing s) w1)
          as (_ & _ & Hlen & _).
        { now rewrite Hcontents. }
        { rewrite Hcontents. apply Hvalid. }
        rewrite Hrun.
        destruct (verdict _ _ _) as [urls e] eqn:Hverdict.
        exists urls, e, w'. split; [reflexivity|]. split.
        { pose proof (verdict_slice_or_error
                        (length (ListObjectsOutput.Contents objects))
                        (signed h c (ListObjectsOutput.Contents objects) (signing s) w1)
                        (firstFailure (omap (fun i => signed h c
                           (ListObjectsOutput.Contents objects) (signing s) w1 !! i)
                           (sending s)))) as Hshape.
          now rewrite Hverdict in Hshape. }
        intros l objects' w1' -> [= <- <-].
        assert (Hsub : l `sublist_of`
                  (url <$> signed h c (ListObjectsOutput.Contents objects) (signing s) w1)).
        { eapply verdict_sublist. rewrite Hverdict. reflexivity. }
        apply sublist_length in Hsub. rewrite length_fmap, Hlen in Hsub.
        exact Hsub.
Qed.

Lemma GetObjects_slice_or_error_witness :
  exists urls e w',
    run (Script.handler (Script.failing ["B"]))
        (GetObjects Script.demoClient {| signing := [2; 0; 1]; sending := [0; 2; 1] |} "p") 0
      = (Returned (urls, e), w') /\
    (urls = None <-> is_Some e).
Proof.
  destruct (GetObjects_slice_or_error nat (Script.handler (Script.failing ["B"])) 0
              Script.demoClient {| signing := [2; 0; 1]; sending := [0; 2; 1] |} "p")
    as (urls & e & w' & Hrun & Hshape & _).
  - intros objects w1 [= <- _]. split; [|split].
    + repeat constructor; eexists; reflexivity.
    + exact (Permutation_cons_append [0; 1] 2).
    + exact (perm_skip 0 (perm_swap 1 2 [])).
  - exists urls, e, w'. split; [exact Hrun|exact Hshape].
Defined.

Lemma GetObjects_listing_failure_witness :
  run (Script.handler Script.listingRefused)
      (GetObjects Script.demoClient {| signing := []; sending := [] |} "p") 0
  = (Returned (None, Some (fmt_Errorf_w "failed to list objects: %w"
                             (sdk_Error "AccessDenied"))), 1).
Proof.
  exact (proj1 (GetObjects_listing_failure nat (Script.handler Script.listingRefused) 0 1
                  Script.demoClient {| signing := []; sending := [] |} "p"
                  (sdk_Error "AccessDenied") eq_refl)).
Defined.

(** X12. On a listing it obtained, whose objects all name a key,
    [GetObjects] makes exactly one signing call per listed object and no
    other: the keys it signs are, in the order the goroutines are
    scheduled, the keys of the listing, each once. *)
Theorem GetObjects_signs_each_object_once (W : Type) (h : Handler W) (w w1 : W)
  (c : Client) (s : Schedule) (prefix : string) (objects : ListObjectsOutput.t) :
  let contents := ListObjectsOutput.Contents objects in
  h _ (callList c prefix) w = (inr objects, w1) ->
  Forall keyed contents ->
  validSchedule (length contents) s ->
  signedKeys (trace h (GetObjects c s prefix) w)
    = omap (fun i => contents !! i ≫= types.Key) (signing s) /\
  Some <$> signedKeys (trace h (GetObjects c s prefix) w) ≡ₚ types.Key <$> contents.
Proof.
  intros contents Hlist Hkeyed [Hsign _]. unfold callList in Hlist.
  assert (Hkeys : signedKeys (trace h (GetObjects c s prefix) w)
                  = omap (fun i => contents !! i ≫= types.Key) (signing s)).
  { unfold GetObjects. rewrite trace_bind, trace_perform, run_perform, Hlist.
    cbn [fst snd]. fold contents.
    change ([Ev ?x ?y] ++ ?tr)%list with (Ev x y :: tr).
    unfold signedKeys at 1. cbn [omap list_omap signedKey]. fold (signedKeys).
    destruct (Nat.eqb_spec (length contents) 0) as [H0|_].
    - rewrite H0 in Hsign. apply Permutation_nil_r in Hsign. now rewrite Hsign.
    - rewrite trace_bind, signedKeys_app, (signedKeys_runWorkers h c contents _ Hkeyed).
      destruct (run_runWorkers h c contents (signing s) Hkeyed
                  (replicate (length contents) None) w1) as (held & w2 & -> & _).
      rewrite (signedKeys_unsigned _ (unsigned_after_workers h (length contents) _ _ w2)).
      apply app_nil_r. }
  split; [exact Hkeys|]. rewrite Hkeys.
  assert (Hsome : forall order : list nat,
            Some <$> omap (fun i => contents !! i ≫= types.Key) order
            = types.Key <$> omap (fun i => contents !! i) order).
  { induction order as [|i order IH]; [reflexivity|].
    cbn [omap list_omap]. destruct (contents !! i) as [obj|] eqn:Hobj;
      cbn [mbind option_bind]; [|exact IH].
    assert (Hk : keyed obj).
    { rewrite Forall_forall in Hkeyed. apply Hkeyed.
      now apply list_elem_of_lookup_2 in Hobj. }
    destruct Hk as [key Hkey]. rewrite Hkey. cbn [fmap list_fmap].
    rewrite Hkey. f_equal. exact IH. }
  rewrite Hsome.
  now rewrite (omap_lookup_Permutation contents (signing s) Hsign).
Qed.

Lemma GetObjects_signs_each_object_once_witness :
  signedKeys (trace (Script.handler (Script.failing ["B"]))
                (GetObjects Script.demoClient
                   {| signing := [2; 0; 1]; sending := [0; 2; 1] |} "p") 0)
  = ["C"; "A"; "B"].
Proof.
  refine (eq_trans (proj1 (GetObjects_signs_each_object_once nat
            (Script.handler (Script.failing ["B"])) 0 1 Script.demoClient
            {| signing := [2; 0; 1]; sending := [0; 2; 1] |} "p" Script.threeObjects
            eq_refl _ _)) eq_refl).
  - repeat constructor; eexists; reflexivity.
  - split.
    + exact (Permutation_cons_append [0; 1] 2).
    + exact (perm_skip 0 (perm_swap 1 2 [])).
Defined.

Section Logs.
Context {W : Type} (h : Handler W) (c : Client).

Lemma omap_all_None {A B : Type} (f : A -> option B) (l : list A) :
  Forall (fun x => f x = None) l -> omap f l = [].
Proof.
  induction 1 as [|x l Hx _ IH]; [reflexivity|].
  cbn [omap list_omap]. now rewrite Hx, IH.
Qed.

Lemma failureLine_error_log (idx : nat) (e : error) :
  failureLine (Ev (log_Printf
    "[go-s3 GetObjects] ERROR: Failed to get presigned URL for index %d: %v"
    [argInt idx; argError e]) tt) = Some (idx, e).
Proof. unfold failureLine. now rewrite String.eqb_refl. Qed.

Lemma warningLine_warning_log (failures total : nat) :
  warningLine (Ev (log_Printf
    "[go-s3 GetObjects] WARNING: %d out of %d presigned URLs failed to generate"
    [argInt failures; argInt total]) tt) = Some (failures, total).
Proof. unfold warningLine. now rewrite String.eqb_refl. Qed.

(** The goroutines write no log line. *)
Lemma runWorkers_silent (contents : list types.Object) (order : list nat)
  (held : list (option presignedURLResult)) (w : W) :
  Forall (fun e => failureLine e = None /\ warningLine e = None)
    (trace h (runWorkers c contents order held) w).
Proof. apply frame_runWorkers. intros key x. split; reflexivity. Qed.

(** The receiving loop writes one line per failed record, with the
    record's index and error, and no warning. *)
Lemma collect_lines (arr : list presignedURLResult) :
  forall (st : collector) (w : W),
  Forall (fun r => index r < length (presignedURLs st)) arr ->
  omap failureLine (trace h (collect arr st) w)
    = omap (fun r => pair (index r) <$> err r) arr /\
  omap warningLine (trace h (collect arr st) w) = [].
Proof.
  induction arr as [|r arr IH]; intros st w Hrange; cbn [collect]; [split; reflexivity|].
  apply Forall_cons in Hrange. destruct Hrange as [Hr Hrange].
  cbn [omap list_omap]. destruct (err r) as [e|] eqn:Herr; cbn [fmap option_fmap option_map].
  - rewrite trace_bind, trace_perform, run_perform. cbn [fst snd].
    change ([?x] ++ ?tr)%list with (x :: tr). cbn [omap list_omap].
    destruct (h _ _ w) as [[] w']. cbn [fst snd].
    rewrite failureLine_error_log.
    destruct (IH {| presignedURLs := presignedURLs st;
                    errorCount := S (errorCount st);
                    firstError := match firstError st with
                                  | None => Some e
                                  | Some first => Some first
                                  end |} w' Hrange) as [-> ->].
    split; reflexivity.
  - destruct (decide _) as [_|Hge]; [|contradiction].
    apply IH. cbn [presignedURLs]. now rewrite length_insert.
Qed.

End Logs.

(** X13. [GetObjects] logs every failed signing once: on a non-empty
    listing whose objects all name a key, the failure lines it writes
    are, in the order the records are received, the index and the error
    of each failed record, so there are as many as failed signings; the
    warning line is written once, with the counts [N] and [M], exactly
    when [0 < N < M]. *)
Theorem GetObjects_logs_each_failure (W : Type) (h : Handler W) (w w1 : W) (c : Client)
  (s : Schedule) (prefix : string) (objects : ListObjectsOutput.t) :
  let contents := ListObjectsOutput.Contents objects in
  let M := length contents in
  let rs := signed h c contents (signing s) w1 in
  let N := length (filter failed rs) in
  let arr := omap (fun i => rs !! i) (sending s) in
  let lines := trace h (GetObjects c s prefix) w in
  h _ (callList c prefix) w = (inr objects, w1) ->
  contents <> [] ->
  Forall keyed contents ->
  validSchedule M s ->
  omap failureLine lines = omap (fun r => pair (index r) <$> err r) arr /\
  length (omap failureLine lines) = N /\
  (0 < N < M -> omap warningLine lines = [(N, M)]) /\
  (N = 0 \/ N = M -> omap warningLine lines = []).
Proof.
  intros contents M rs N arr lines Hlist Hne Hkeyed [Hsign Hsend]. unfold callList in Hlist.
  destruct (signed_spec h c contents (signing s) w1 Hkeyed Hsign)
    as (w2 & Hheld & Hlen & Htag).
  fold rs in Hheld, Hlen, Htag.
  assert (Hperm : arr ≡ₚ rs).
  { apply omap_lookup_Permutation. now rewrite Hlen. }
  assert (Hrange : Forall (fun r => index r < length (replicate (length contents) "")) arr).
  { rewrite length_replicate. apply Forall_forall.
    intros r Hr. rewrite Hperm in Hr. apply list_elem_of_lookup_1 in Hr.
    destruct Hr as [i Hi]. rewrite (proj1 (Htag i r Hi)).
    apply lookup_lt_Some in Hi. now rewrite <- Hlen. }
  destruct (run_collect h arr {| presignedURLs := replicate (length contents) "";
                                 errorCount := 0; firstError := None |} w2 Hrange)
    as [w3 Hcollect].
  destruct (collect_lines h arr {| presignedURLs := replicate (length contents) "";
                                   errorCount := 0; firstError := None |} w2 Hrange)
    as [Hfail Hwarn].
  assert (Hcount : length (filter failed arr) = N) by (unfold N; now rewrite Hperm).
  assert (Hlines : lines = (Ev (ListObjects (client c)
                      {| ListObjectsInput.Bucket := bucket c;
                         ListObjectsInput.Prefix := prefix |}) (inr objects)
            :: trace h (runWorkers c contents (signing s)
                          (replicate (length contents) None)) w1
            ++ trace h (collect arr {| presignedURLs := replicate (length contents) "";
                                       errorCount := 0; firstError := None |}) w2
            ++ (if (N =? M)%nat then []
                else if (0 <? N)%nat then
                  [Ev (log_Printf
                    "[go-s3 GetObjects] WARNING: %d out of %d presigned URLs failed to generate"
                    [argInt N; argInt M]) tt]
                else []))%list).
  { unfold lines, GetObjects. rewrite trace_bind, trace_perform, run_perform, Hlist.
    cbn [fst snd]. fold contents.
    destruct (Nat.eqb_spec (length contents) 0) as [H0|_].
    { destruct contents; [contradiction|discriminate]. }
    change ([?x] ++ ?tr)%list with (x :: tr). f_equal.
    rewrite trace_bind, Hheld, received_fmap. fold arr. f_equal.
    rewrite trace_bind, Hcollect. f_equal.
    cbn [errorCount presignedURLs]. rewrite Nat.add_0_l, Hcount. fold M.
    destruct (N =? M)%nat; [reflexivity|].
    destruct (0 <? N)%nat; [|reflexivity].
    rewrite trace_bind, trace_perform, run_perform. cbn [fst snd].
    destruct (h _ _ w3) as [[] w4]. reflexivity. }
  pose proof (runWorkers_silent h c contents (signing s)
                (replicate (length contents) None) w1) as Hsilent.
  assert (Hfail_lines : omap failureLine lines
                        = omap (fun r => pair (index r) <$> err r) arr).
  { rewrite Hlines. cbn [omap list_omap failureLine]. rewrite !omap_app, Hfail.
    rewrite (omap_all_None failureLine (trace h (runWorkers _ _ _ _) w1)).
    - destruct (N =? M)%nat; [now rewrite app_nil_r|].
      destruct (0 <? N)%nat; now rewrite app_nil_r.
    - eapply Forall_impl; [exact Hsilent|]. now intros e [He _]. }
  split; [exact Hfail_lines|]. split.
  - rewrite Hfail_lines, <- Hcount. clear.
    induction arr as [|r arr IH]; [reflexivity|].
    cbn [omap list_omap]. rewrite filter_cons.
    destruct (decide (failed r)) as [[e He]|Hok].
    + rewrite He. simpl. now rewrite IH.
    + destruct (err r) as [e|] eqn:He; [|exact IH].
      exfalso. apply Hok. unfold failed. rewrite He. eauto.
  - assert (Hwarn_lines : omap warningLine lines
                          = if (N =? M)%nat then []
                            else if (0 <? N)%nat then [(N, M)] else []).
    { rewrite Hlines. cbn [omap list_omap warningLine]. rewrite !omap_app, Hwarn.
      rewrite (omap_all_None warningLine (trace h (runWorkers _ _ _ _) w1)).
      - destruct (N =? M)%nat; [reflexivity|].
        destruct (0 <? N)%nat; [|reflexivity].
        cbn [app omap list_omap]. now rewrite warningLine_warning_log.
      - eapply Forall_impl; [exact Hsilent|]. now intros e [_ He]. }
    rewrite Hwarn_lines. split.
    + intros HN. destruct (Nat.eqb_spec N M); [lia|].
      destruct (Nat.ltb_spec 0 N); [reflexivity|lia].
    + intros [H0|HM].
      * rewrite H0. destruct (0 =? M)%nat; reflexivity.
      * rewrite HM, Nat.eqb_refl. reflexivity.
Qed.

Lemma GetObjects_logs_each_failure_witness :
  omap failureLine
    (trace (Script.handler (Script.failing ["B"]))
       (GetObjects Script.demoClient {| signing := [2; 0; 1]; sending := [0; 2; 1] |} "p") 0)
  = [(1, fmt_Errorf_w "failed to generate presigned URL: %w" (sdk_Error "cannot sign B"))].
Proof.
  refine (eq_trans (proj1 (GetObjects_logs_each_failure nat
            (Script.handler (Script.failing ["B"])) 0 1 Script.demoClient
            {| signing := [2; 0; 1]; sending := [0; 2; 1] |} "p" Script.threeObjects
            eq_refl _ _ _)) _).
  - discriminate.
  - repeat constructor; eexists; reflexivity.
  - split.
    + exact (Permutation_cons_append [0; 1] 2).
    + exact (perm_skip 0 (perm_swap 1 2 [])).
  - vm_compute. reflexivity.
Defined.

(** ** More on the search by URL *)

Section Search.
Context {W : Type} (h : Handler W) (c : Client).

(** A key the loop returns was signed in the run, and that signing
    matched. *)
Lemma findKeyLoop_sound (target : string) (contents : list types.Object) :
  forall w key w',
  run h (findKeyLoop c target contents) w = (Returned (key, None), w') ->
  exists obj request,
    obj ∈ contents /\ types.Key obj = Some key /\
    Ev (callSign c key fifteenMinutes) (inr request)
      ∈ trace h (findKeyLoop c target contents) w /\
    normalizeURL (s3.URL request) = target.
Proof.
  induction contents as [|obj rest IH]; intros w key w'; cbn [findKeyLoop].
  - cbn [run]. intros [= ].
  - destruct (types.Key obj) as [k|] eqn:Hkey; cbn [deref bind];
      [|cbn [run]; intros Hrun; discriminate Hrun].
    rewrite run_bind, trace_bind, run_GetPresignedURL, trace_GetPresignedURL.
    fold (callSign c k fifteenMinutes).
    destruct (h _ (callSign c k fifteenMinutes) w) as [[e|request] w1]; cbn [fst snd].
    + intros Hrun. destruct (IH w1 key w' Hrun) as (o & rq & Ho & Hk & Hev & Hm).
      exists o, rq. split; [now right|]. split; [exact Hk|]. split; [|exact Hm].
      apply elem_of_app. now right.
    + destruct (String.eqb_spec (normalizeURL (s3.URL request)) target) as [Heq|Hne].
      * cbn [run]. intros [= <- <-]. exists obj, request.
        split; [now left|]. split; [exact Hkey|]. split; [|exact Heq].
        apply elem_of_app. left. now left.
      * intros Hrun. destruct (IH w1 key w' Hrun) as (o & rq & Ho & Hk & Hev & Hm).
        exists o, rq. split; [now right|]. split; [exact Hk|]. split; [|exact Hm].
        apply elem_of_app. now right.
Qed.

(** The loop signs the listed keys in order and stops right after the
    one it returns. *)
Lemma findKeyLoop_signed (target : string) (contents : list types.Object) :
  forall w,
  (Some <$> signedKeys (trace h (findKeyLoop c target contents) w))
    `prefix_of` (types.Key <$> contents) /\
  forall key e w',
    run h (findKeyLoop c target contents) w = (Returned (key, e), w') ->
    match e with
    | None => last (signedKeys (trace h (findKeyLoop c target contents) w)) = Some key
    | Some _ => Some <$> signedKeys (trace h (findKeyLoop c target contents) w)
                = types.Key <$> contents
    end.
Proof.
  induction contents as [|obj rest IH]; intros w; cbn [findKeyLoop].
  - split; [apply prefix_nil|]. cbn [run]. intros key e w' [= <- <- <-]. reflexivity.
  - rewrite fmap_cons.
    destruct (types.Key obj) as [k|] eqn:Hkey; cbn [deref bind].
    2:{ split; [apply prefix_nil|]. cbn [run]. intros key e w' Hrun. discriminate Hrun. }
    rewrite run_bind, trace_bind, signedKeys_app, signedKeys_GetPresignedURL.
    destruct (GetPresignedURL_returns h c k fifteenMinutes w)
      as (u & e0 & w1 & -> & _).
    change ([?x] ++ ?l)%list with (x :: l). rewrite fmap_cons.
    assert (Hgo : forall ks : list (option string),
              ks `prefix_of` (types.Key <$> rest) ->
              (Some k :: ks) `prefix_of` (Some k :: (types.Key <$> rest)))
      by (intros ks; apply prefix_cons).
    assert (Hrest :
      (Some <$> signedKeys (trace h (findKeyLoop c target rest) w1))
        `prefix_of` (types.Key <$> rest) /\
      forall key e w',
        run h (findKeyLoop c target rest) w1 = (Returned (key, e), w') ->
        match e with
        | None => last (k :: signedKeys (trace h (findKeyLoop c target rest) w1))
                  = Some key
        | Some _ => Some k :: (Some <$> signedKeys (trace h (findKeyLoop c target rest) w1))
                    = Some k :: (types.Key <$> rest)
        end).
    { destruct (IH w1) as [Hpre Hlast]. split; [exact Hpre|].
      intros key e w' Hrun. specialize (Hlast key e w' Hrun).
      destruct e as [e|]; [now rewrite Hlast|].
      destruct (signedKeys (trace h (findKeyLoop c target rest) w1)) as [|k' ks];
        [discriminate|]. now rewrite last_cons_cons. }
    destruct e0 as [e0|].
    + split; [apply Hgo|]; apply Hrest.
    + destruct (String.eqb _ _).
      * split; [apply Hgo, prefix_nil|]. cbn [run]. intros key e w' [= <- <- <-].
        reflexivity.
      * split; [apply Hgo|]; apply Hrest.
Qed.

Lemma string_append_nil (u : string) : u ++ "" = u.
Proof.
  induction u as [|ch u IH]; [reflexivity|].
  change (String ch u ++ "") with (String ch (u ++ "")). now rewrite IH.
Qed.

Lemma normalizeURL_fixed (t : string) : normalizeURL (normalizeURL t) = normalizeURL t.
Proof.
  destruct (normalizeURL_split t) as (rest & Ht & [->|(d & q & -> & Hd)]).
  - rewrite string_append_nil in Ht. now rewrite <- Ht.
  - rewrite Ht at 2. now rewrite normalizeURL_append_delim.
Qed.

End Search.

(** X14. A key [FindKeyByPresignedURL] returns without error is the key
    of a listed object, and during the run that key was signed for
    fifteen minutes with success and the signed URL normalized to the
    normalized target. *)
Theorem FindKeyByPresignedURL_key_was_matched (W : Type) (h : Handler W) (w w' : W)
  (c : Client) (presignedURL prefix key : string) :
  run h (FindKeyByPresignedURL c presignedURL prefix) w = (Returned (key, None), w') ->
  exists objects w1 obj request,
    h _ (callList c prefix) w = (inr objects, w1) /\
    obj ∈ ListObjectsOutput.Contents objects /\
    types.Key obj = Some key /\
    Ev (callSign c key fifteenMinutes) (inr request)
      ∈ trace h (FindKeyByPresignedURL c presignedURL prefix) w /\
    normalizeURL (s3.URL request) = normalizeURL presignedURL.
Proof.
  unfold FindKeyByPresignedURL, callList.
  rewrite run_bind, trace_bind, run_perform, trace_perform.
  destruct (h _ _ w) as [[e|objects] w1]; cbn [fst snd]; [discriminate|].
  intros Hrun.
  destruct (findKeyLoop_sound h c _ _ w1 key w' Hrun) as (obj & request & Ho & Hk & Hev & Hm).
  exists objects, w1, obj, request. split; [reflexivity|]. split; [exact Ho|].
  split; [exact Hk|]. split; [|exact Hm]. apply elem_of_app. now right.
Qed.

Lemma FindKeyByPresignedURL_key_was_matched_witness :
  exists objects w1 obj request,
    Script.handler Script.healthy _ (callList Script.demoClient "p") 0 = (inr objects, w1) /\
    obj ∈ ListObjectsOutput.Contents objects /\
    types.Key obj = Some "B" /\
    Ev (callSign Script.demoClient "B" fifteenMinutes) (inr request)
      ∈ trace (Script.handler Script.healthy)
          (FindKeyByPresignedURL Script.demoClient (Script.pathURL "old" "B") "p") 0 /\
    normalizeURL (s3.URL request) = normalizeURL (Script.pathURL "old" "B").
Proof.
  apply (FindKeyByPresignedURL_key_was_matched nat (Script.handler Script.healthy) 0 3).
  vm_compute. reflexivity.
Defined.

(** X15. The search depends on the target only through its normal form:
    two targets with the same normal form give the same program, hence
    the same calls and the same result against any service.  In
    particular the query and fragment of the target are irrelevant, and
    so is normalizing it beforehand. *)
Theorem FindKeyByPresignedURL_ignores_target_query (c : Client) (prefix : string) :
  (forall t1 t2, normalizeURL t1 = normalizeURL t2 ->
     FindKeyByPresignedURL c t1 prefix = FindKeyByPresignedURL c t2 prefix) /\
  (forall u q d, d = "?"%char \/ d = "#"%char ->
     FindKeyByPresignedURL c (u ++ String d q) prefix = FindKeyByPresignedURL c u prefix) /\
  (forall t, FindKeyByPresignedURL c (normalizeURL t) prefix
             = FindKeyByPresignedURL c t prefix).
Proof.
  assert (Hnf : forall t1 t2, normalizeURL t1 = normalizeURL t2 ->
            FindKeyByPresignedURL c t1 prefix = FindKeyByPresignedURL c t2 prefix).
  { intros t1 t2 Heq. unfold FindKeyByPresignedURL. now rewrite Heq. }
  split; [exact Hnf|]. split.
  - intros u q d Hd. apply Hnf, normalizeURL_append_delim. now apply isDelim_true.
  - intros t. apply Hnf, normalizeURL_fixed.
Qed.

(** X16. On a listing it obtained, [FindKeyByPresignedURL] signs the
    listed objects in listing order and stops right after the match: the
    keys it signs are a prefix of the listed keys, ending with the key it
    returns; all the listed keys when it returns an error. *)
Theorem FindKeyByPresignedURL_stops_at_match (W : Type) (h : Handler W) (w w1 : W)
  (c : Client) (presignedURL prefix : string) (objects : ListObjectsOutput.t) :
  let keys := types.Key <$> ListObjectsOutput.Contents objects in
  let signed := signedKeys (trace h (FindKeyByPresignedURL c presignedURL prefix) w) in
  h _ (callList c prefix) w = (inr objects, w1) ->
  (Some <$> signed) `prefix_of` keys /\
  forall key e w',
    run h (FindKeyByPresignedURL c presignedURL prefix) w = (Returned (key, e), w') ->
    match e with
    | None => last signed = Some key
    | Some _ => Some <$> signed = keys
    end.
Proof.
  intros keys signed Hlist. unfold signed, FindKeyByPresignedURL, callList in *.
  rewrite run_bind, trace_bind, run_perform, trace_perform, Hlist. cbn [fst snd].
  change ([?x] ++ ?l)%list with (x :: l).
  assert (Hskip : forall cl input x tr,
            signedKeys (Ev (ListObjects cl input) x :: tr) = signedKeys tr)
    by reflexivity.
  rewrite !Hskip. apply findKeyLoop_signed.
Qed.

Lemma FindKeyByPresignedURL_stops_at_match_witness :
  last (signedKeys (trace (Script.handler Script.healthy)
          (FindKeyByPresignedURL Script.demoClient (Script.pathURL "old" "B") "p") 0))
  = Some "B" /\
  length (signedKeys (trace (Script.handler Script.healthy)
            (FindKeyByPresignedURL Script.demoClient (Script.pathURL "old" "B") "p") 0))
  = 2.
Proof.
  split.
  - apply (proj2 (FindKeyByPresignedURL_stops_at_match nat (Script.handler Script.healthy)
                    0 1 Script.demoClient (Script.pathURL "old" "B") "p"
                    Script.threeObjects eq_refl) "B" None 3).
    vm_compute. reflexivity.
  - vm_compute. reflexivity.
Defined.

(** X20. When the search comes, before any match, to a listed object
    with a nil key, [FindKeyByPresignedURL] panics with a nil pointer
    dereference, having made the listing call and the signing calls for
    the objects before it and no call for that object or those after it. *)
Theorem FindKeyByPresignedURL_nil_key_panics (W : Type) (h : Handler W) (w w1 w2 : W)
  (c : Client) (presignedURL prefix : string) (objects : ListObjectsOutput.t)
  (before after : list types.Object) (obj : types.Object)
  (skipped : list (string * option error)) :
  h _ (callList c prefix) w = (inr objects, w1) ->
  ListObjectsOutput.Contents objects = (before ++ obj :: after)%list ->
  run h (signEach c before) w1 = (Returned skipped, w2) ->
  Forall (fun sg => ~ matches presignedURL sg) skipped ->
  types.Key obj = None ->
  run h (FindKeyByPresignedURL c presignedURL prefix) w
    = (Panicked "invalid memory address or nil pointer dereference", w2) /\
  Some <$> signedKeys (trace h (FindKeyByPresignedURL c presignedURL prefix) w)
    = types.Key <$> before.
Proof.
  intros Hlist Hcontents Hskip Hno Hnil. unfold callList in Hlist. split.
  - rewrite (run_FindKeyByPresignedURL_listed h c presignedURL prefix objects w w1 Hlist).
    rewrite Hcontents.
    rewrite (findKeyLoop_skip h c presignedURL before _ skipped w1 w2 Hskip Hno).
    cbn [findKeyLoop]. rewrite Hnil. reflexivity.
  - unfold FindKeyByPresignedURL.
    rewrite trace_bind, trace_perform, run_perform, Hlist. cbn [fst snd].
    change ([?x] ++ ?l)%list with (x :: l).
    assert (Hdrop : forall cl input x tr,
              signedKeys (Ev (ListObjects cl input) x :: tr) = signedKeys tr)
      by reflexivity.
    rewrite Hdrop, Hcontents. clear Hlist Hcontents Hdrop.
    revert skipped w1 Hskip Hno.
    induction before as [|o before IH]; intros skipped w1 Hskip Hno.
    + cbn [app findKeyLoop]. now rewrite Hnil.
    + apply signEach_cons in Hskip.
      destruct Hskip as (key & sg & w1' & more & Hkey & Hsg & Hmore & ->).
      apply Forall_cons in Hno. destruct Hno as [Hsg_no Hmore_no].
      rewrite <- app_comm_cons. cbn [findKeyLoop]. rewrite fmap_cons, Hkey.
      cbn [deref bind].
      rewrite trace_bind, signedKeys_app, signedKeys_GetPresignedURL, Hsg.
      change ([?x] ++ ?l)%list with (x :: l). rewrite fmap_cons. f_equal.
      destruct sg as [u [e|]].
      * now apply (IH more w1').
      * destruct (String.eqb_spec (normalizeURL u) (normalizeURL presignedURL))
          as [Heq|_]; [|now apply (IH more w1')].
        exfalso. apply Hsg_no. split; [reflexivity|exact Heq].
Qed.

Lemma FindKeyByPresignedURL_nil_key_panics_witness :
  run (Script.handler Script.keyless)
      (FindKeyByPresignedURL Script.demoClient (Script.pathURL "old" "C") "p") 0
  = (Panicked "invalid memory address or nil pointer dereference", 2) /\
  signedKeys (trace (Script.handler Script.keyless)
                (FindKeyByPresignedURL Script.demoClient (Script.pathURL "old" "C") "p") 0)
  = ["A"].
Proof.
  destruct (FindKeyByPresignedURL_nil_key_panics nat (Script.handler Script.keyless)
              0 1 2 Script.demoClient (Script.pathURL "old" "C") "p"
              {| ListObjectsOutput.Contents :=
                   types.Build_Object <$> [Some "A"; None; Some "C"] |}
              [types.Build_Object (Some "A")] [types.Build_Object (Some "C")]
              (types.Build_Object None) [(Script.pathURL "s1" "A", None)]
              eq_refl eq_refl eq_refl) as [Hrun _].
  - repeat constructor. intros [_ Hurl]. vm_compute in Hurl. discriminate Hurl.
  - reflexivity.
  - split; [exact Hrun|]. vm_compute. reflexivity.
Defined.

(** ** Where the errors come from *)

Section Provenance.
Context {W : Type} (h : Handler W) (c : Client).

Lemma errors_Is_refl (e : error) : errors_Is e e.
Proof. destruct e; left; reflexivity. Qed.

Lemma errors_Is_wrap (format : string) (err target : error) :
  errors_Is err target -> errors_Is (fmt_Errorf_w format err) target.
Proof. intros His. right. exact His. Qed.

Lemma caused_here {X : Type} (cl : call X) (x : X) (err e : error) (tr : list Event) :
  Ev cl x ∈ tr -> answerError (Ev cl x) = Some e -> errors_Is err e -> caused err tr.
Proof. intros Hin Hans His. exists (Ev cl x), e. auto. Qed.

End Provenance.

(** X17. The errors of the methods are never invented: an error
    returned by [UploadFile], [DeleteFile] or [GetPresignedURL] wraps an
    error that an SDK call of the same run was answered with, so the
    caller can reach the cause by unwrapping; the same holds for [New]
    unless it is the credentials error, and for
    [FindKeyByPresignedURL] unless it is the not-found error. *)
Theorem errors_wrap_an_SDK_failure (W : Type) (h : Handler W) (w : W) (c : Client) :
  (forall cfg cl err w',
     run h (New cfg) w = (Returned (cl, Some err), w') ->
     err = credentialsError \/ caused err (trace h (New cfg) w)) /\
  (forall objectID key body contentType u err w',
     run h (UploadFile c objectID key body contentType) w = (Returned (u, Some err), w') ->
     caused err (trace h (UploadFile c objectID key body contentType) w)) /\
  (forall key err w',
     run h (DeleteFile c key) w = (Returned (Some err), w') ->
     caused err (trace h (DeleteFile c key) w)) /\
  (forall key expiration u err w',
     run h (GetPresignedURL c key expiration) w = (Returned (u, Some err), w') ->
     caused err (trace h (GetPresignedURL c key expiration) w)) /\
  (forall presignedURL prefix key err w',
     run h (FindKeyByPresignedURL c presignedURL prefix) w
       = (Returned (key, Some err), w') ->
     err = notFoundError \/
     caused err (trace h (FindKeyByPresignedURL c presignedURL prefix) w)).
Proof.
  split; [|split; [|split; [|split]]].
  - intros cfg cl err w'. unfold New.
    destruct (_ || _)%bool; [cbn [run]; intros [= <- <- <-]; now left|].
    rewrite run_bind, trace_bind, run_perform, trace_perform.
    destruct (h _ _ w) as [[e|awsCfg] w1] eqn:Hload; cbn [fst snd run];
      intros [= <- <- <-]. right.
    eapply caused_here; [apply elem_of_app; left; left| |].
    + reflexivity.
    + apply errors_Is_wrap, errors_Is_refl.
  - intros objectID key body contentType u err w'. unfold UploadFile.
    rewrite run_bind, trace_bind, run_perform, trace_perform.
    destruct (h _ _ w) as [[e|] w1]; cbn [fst snd].
    + cbn [run]. intros [= <- <- <-].
      eapply caused_here; [apply elem_of_app; left; left| |].
      * reflexivity.
      * apply errors_Is_wrap, errors_Is_refl.
    + rewrite run_bind, trace_bind, run_GetPresignedURL, trace_GetPresignedURL.
      destruct (h _ _ w1) as [[e|request] w2]; cbn [fst snd run]; intros [= <- <- <-].
      eapply caused_here; [apply elem_of_app; right; apply elem_of_app; left; left| |].
      * reflexivity.
      * apply errors_Is_wrap, errors_Is_wrap, errors_Is_refl.
  - intros key err w'. unfold DeleteFile.
    rewrite run_bind, trace_bind, run_perform, trace_perform.
    destruct (h _ _ w) as [[e|] w1]; cbn [fst snd run]; intros [= <- <-].
    eapply caused_here; [apply elem_of_app; left; left| |].
    + reflexivity.
    + apply errors_Is_wrap, errors_Is_refl.
  - intros key expiration u err w'.
    rewrite run_GetPresignedURL, trace_GetPresignedURL.
    destruct (h _ _ w) as [[e|request] w1]; cbn [fst snd]; intros [= <- <- <-].
    eapply caused_here; [left| |].
    + reflexivity.
    + apply errors_Is_wrap, errors_Is_refl.
  - intros presignedURL prefix key err w'. unfold FindKeyByPresignedURL.
    rewrite run_bind, trace_bind, run_perform, trace_perform.
    destruct (h _ _ w) as [[e|objects] w1]; cbn [fst snd].
    + cbn [run]. intros [= <- <- <-]. right.
      eapply caused_here; [apply elem_of_app; left; left| |].
      * reflexivity.
      * apply errors_Is_wrap, errors_Is_refl.
    + intros Hrun. left.
      destruct (findKeyLoop_errors h c _ _ w1 key (Some err) w' Hrun) as [He|He];
        [discriminate He|]. now injection He as ->.
Qed.

(** X18. An error [GetObjects] returns is never invented either: under
    a schedule of whatever the listing returns, it wraps the error the
    listing call was answered with, or, when every signing failed, the
    error a signing call of the run was answered with (wrapped once by
    [GetPresignedURL] and once by [GetObjects]). *)
Theorem GetObjects_error_wraps_an_SDK_failure (W : Type) (h : Handler W) (w : W)
  (c : Client) (s : Schedule) (prefix : string) :
  (forall objects w1,
     h _ (callList c prefix) w = (inr objects, w1) ->
     validSchedule (length (ListObjectsOutput.Contents objects)) s) ->
  forall urls err w',
    run h (GetObjects c s prefix) w = (Returned (urls, Some err), w') ->
    caused err (trace h (GetObjects c s prefix) w).
Proof.
  intros Hsched urls err w' Hrun. unfold callList in Hsched.
  destruct (h _ (ListObjects (client c)
                   {| ListObjectsInput.Bucket := bucket c;
                      ListObjectsInput.Prefix := prefix |}) w)
    as [[e|objects] w1] eqn:Hlist.
  - unfold GetObjects in *.
    rewrite run_bind, run_perform, Hlist in Hrun. cbn [fst snd run] in Hrun.
    injection Hrun as _ <- _.
    rewrite trace_bind, trace_perform, run_perform, Hlist. cbn [fst snd].
    eapply caused_here; [apply elem_of_app; left; left| |].
    + reflexivity.
    + apply errors_Is_wrap, errors_Is_refl.
  - specialize (Hsched objects w1 eq_refl).
    set (contents := ListObjectsOutput.Contents objects) in *.
    destruct (Nat.eq_dec (length contents) 0) as [H0|H0].
    { exfalso. unfold GetObjects in Hrun.
      rewrite run_bind, run_perform, Hlist in Hrun. cbn [fst snd] in Hrun.
      fold contents in Hrun. rewrite H0 in Hrun. discriminate Hrun. }
    assert (Hne : contents <> []) by (intros Heq; now rewrite Heq in H0).
    assert (Hkeyed : Forall keyed contents).
    { exact (GetObjects_returned_keyed h c s prefix objects w w1 _ w' Hlist
               (proj1 Hsched) Hrun). }
    destruct (run_GetObjects_listed h c s prefix objects w w1 Hlist Hne Hkeyed Hsched)
      as (Hperm & w2 & Hverdict). fold contents in Hperm, Hverdict.
    destruct (signed_spec h c contents (signing s) w1 Hkeyed (proj1 Hsched))
      as (w3 & Hheld & Hlen & _).
    pose proof (signed_origin h c contents (signing s) w1 Hkeyed (proj1 Hsched))
      as Horigin.
    set (rs := signed h c contents (signing s) w1) in *.
    set (arr := omap (fun i => rs !! i) (sending s)) in *.
    rewrite Hverdict in Hrun. injection Hrun as Hv _. unfold verdict in Hv.
    destruct (Nat.eqb_spec (length (filter failed rs)) (length contents)) as [HN|_];
      [|destruct (0 <? _)%nat; discriminate Hv].
    injection Hv as _ <-.
    assert (Hall : Forall failed rs) by (apply failures_all; now rewrite Hlen).
    destruct arr as [|r arr'] eqn:Harr.
    { apply Permutation_nil_l in Hperm. rewrite <- Hperm in Hlen. simpl in Hlen. lia. }
    assert (Hin : r ∈ rs) by (rewrite <- Hperm; left).
    assert (Hr : failed r) by (rewrite Forall_forall in Hall; now apply Hall).
    destruct Hr as [e1 He1].
    apply list_elem_of_lookup_1 in Hin. destruct Hin as [i Hi].
    destruct (Horigin i r Hi) as (obj & key & w0 & _ & _ & Hrec & Hev).
    destruct (h _ (callSign c key fifteenMinutes) w0) as [[e0|request] w0'];
      cbn [fst] in Hrec, Hev;
      [|rewrite Hrec in He1; discriminate He1].
    assert (He : e1 = fmt_Errorf_w "failed to generate presigned URL: %w" e0).
    { rewrite Hrec in He1. cbn [recordOf err] in He1. now injection He1 as <-. }
    rewrite He in He1. clear He.
    unfold firstFailure. cbn [omap list_omap]. rewrite He1. cbn [head Errorf_w].
    eapply caused_here; [| |apply errors_Is_wrap, errors_Is_wrap, errors_Is_refl].
    + unfold GetObjects. rewrite trace_bind, trace_perform, run_perform, Hlist.
      cbn [fst snd]. fold contents.
      destruct (Nat.eqb_spec (length contents) 0) as [|_]; [contradiction|].
      apply elem_of_app. right. rewrite trace_bind. apply elem_of_app. left. exact Hev.
    + reflexivity.
Qed.

Lemma GetObjects_error_wraps_an_SDK_failure_witness :
  caused (fmt_Errorf_w "failed to get presigned URLs: %w"
            (fmt_Errorf_w "failed to generate presigned URL: %w"
               (sdk_Error "cannot sign C")))
    (trace (Script.handler (Script.failing ["A"; "B"; "C"]))
       (GetObjects Script.demoClient {| signing := [0; 1; 2]; sending := [2; 0; 1] |} "p") 0).
Proof.
  apply (GetObjects_error_wraps_an_SDK_failure nat
           (Script.handler (Script.failing ["A"; "B"; "C"])) 0 Script.demoClient
           {| signing := [0; 1; 2]; sending := [2; 0; 1] |} "p") with (urls := None) (w' := 7).
  - intros objects w1 [= <- _]. split.
    + reflexivity.
    + exact (Permutation_cons_append [0; 1] 2).
  - vm_compute. reflexivity.
Defined.
